(** * MemoriaVault backend: metadata store, search index and ingestion

    A shallow embedding of [backend/db.py], [backend/app.py],
    [backend/ocr_utils.py], [backend/asr_utils.py] and
    [backend/sentiment_utils.py].

    - SQLite tables are finite maps keyed by rowid; a connection carries the
      committed database, its own uncommitted view, and the list of committed
      states another connection could have read while it ran.
    - [memories_fts] is a table of rows (title, text, person) on which the
      three triggers act with their plain SQL meaning; the token index that
      FTS5 keeps behind it is not modelled.
    - Python values bound to SQL parameters are a small sum type [value];
      column affinity conversions are not modelled (a value is stored as it
      is bound).
    - Everything outside the repository (Tesseract, OpenCV, exifread, Whisper,
      TextBlob, VADER, the regex engine, the FTS5 matcher, ranker and snippet
      function, the clock, uuid4) is an explicit oracle: a field of [world]
      or of [fts5_engine], so every definition runs on a concrete oracle.
    - Text is ASCII: [str.strip], [str.lower] and the whitespace test act on
      the ASCII range. *)

From Stdlib Require Import ZArith QArith Qround Qabs String Ascii List Permutation Sorted Lia Lqa.
From stdpp Require Import gmap strings list fin_maps sorting.

Local Open Scope string_scope.
Local Open Scope Z_scope.
Local Open Scope list_scope.

(** ** Python values and outcomes *)

(** A Python value as it is bound to an SQL parameter or put in a dict. *)
Inductive value : Type :=
| VNone
| VStr (s : string)
| VFloat (q : Q)
| VInt (z : Z).

(** The result of a call that may raise: [Raise msg] carries [str(e)]. *)
Inductive outcome (A : Type) : Type :=
| Return (a : A)
| Raise (msg : string).
Arguments Return {A} a.
Arguments Raise {A} msg.

(** ** db.py: schema *)

Module Memories.
(** A row of table [memories]. [created_at] and [updated_at] hold
    [CURRENT_TIMESTAMP], a second count: the text form
    'YYYY-MM-DD HH:MM:SS' is fixed-width, so it compares as the count. *)
Record row : Type := mk {
  id : Z;
  title : value;
  text : value;
  date : value;
  location : value;
  sentiment : value;
  media_path : value;
  media_type : value;
  person : value;
  created_at : Z;
  updated_at : Z
}.
End Memories.

Module Fts.
(** A row of [memories_fts]: the three indexed columns, in the order of
    the CREATE VIRTUAL TABLE statement (column 0, 1, 2). *)
Record row : Type := mk {
  title : value;
  text : value;
  person : value
}.
End Fts.

Record database : Type := mk_database {
  memories : gmap Z Memories.row;
  memories_fts : gmap Z Fts.row;
  (** the AUTOINCREMENT counter of [memories] in [sqlite_sequence] *)
  sqlite_sequence : Z
}.

(** [init_database] on a fresh file: the CREATE statements give empty
    tables. *)
Definition init_database : database :=
  {| memories := ∅; memories_fts := ∅; sqlite_sequence := 0 |}.

(** *** The three triggers *)

Definition fts_values (new : Memories.row) : Fts.row :=
  Fts.mk (Memories.title new) (Memories.text new) (Memories.person new).

(** AFTER INSERT ON memories:
    INSERT INTO memories_fts(rowid, title, text, person) VALUES (new.id, ...) *)
Definition memories_fts_insert (new : Memories.row) (d : database) : database :=
  {| memories := memories d;
     memories_fts := <[Memories.id new := fts_values new]> (memories_fts d);
     sqlite_sequence := sqlite_sequence d |}.

(** AFTER UPDATE ON memories:
    UPDATE memories_fts SET title = new.title, ... WHERE rowid = new.id *)
Definition memories_fts_update (new : Memories.row) (d : database) : database :=
  {| memories := memories d;
     memories_fts := alter (fun _ => fts_values new) (Memories.id new) (memories_fts d);
     sqlite_sequence := sqlite_sequence d |}.

(** AFTER DELETE ON memories: DELETE FROM memories_fts WHERE rowid = old.id *)
Definition memories_fts_delete (old : Memories.row) (d : database) : database :=
  {| memories := memories d;
     memories_fts := delete (Memories.id old) (memories_fts d);
     sqlite_sequence := sqlite_sequence d |}.

(** *** Statements on [memories], before their trigger fires *)

Definition max_rowid (m : gmap Z Memories.row) : Z :=
  map_fold (fun k _ acc => Z.max k acc) 0 m.

(** AUTOINCREMENT: one more than the largest rowid ever used. *)
Definition next_rowid (d : database) : Z :=
  Z.max (sqlite_sequence d) (max_rowid (memories d)) + 1.

Definition table_insert (r : Memories.row) (d : database) : database :=
  {| memories := <[Memories.id r := r]> (memories d);
     memories_fts := memories_fts d;
     sqlite_sequence := Z.max (sqlite_sequence d) (Memories.id r) |}.

Definition table_update (r : Memories.row) (d : database) : database :=
  {| memories := <[Memories.id r := r]> (memories d);
     memories_fts := memories_fts d;
     sqlite_sequence := sqlite_sequence d |}.

Definition table_delete (k : Z) (d : database) : database :=
  {| memories := delete k (memories d);
     memories_fts := memories_fts d;
     sqlite_sequence := sqlite_sequence d |}.

(** The column constraints: title TEXT NOT NULL, media_path TEXT NOT NULL,
    media_type TEXT NOT NULL CHECK (media_type IN ('image', 'audio')). *)
Definition is_null (v : value) : bool :=
  match v with VNone => true | _ => false end.

Definition media_type_ok (v : value) : bool :=
  match v with
  | VStr s => String.eqb s "image" || String.eqb s "audio"
  | _ => false
  end.

Definition constraints_ok (r : Memories.row) : bool :=
  negb (is_null (Memories.title r))
  && negb (is_null (Memories.media_path r))
  && media_type_ok (Memories.media_type r).

(** ** Connections and transactions *)

(** A connection opened by [get_db_connection]: [disk] is the committed
    database, [view] what this connection's statements have made of it, and
    [seen] the committed state after each step of the connection, that is
    every state a concurrent reader could have been served. *)
Record connection : Type := mk_connection {
  disk : database;
  view : database;
  seen : list database
}.

Definition get_db_connection (d : database) : connection :=
  {| disk := d; view := d; seen := [d] |}.

(** A statement: it changes the view only. *)
Definition execute (f : database -> database) (c : connection) : connection :=
  {| disk := disk c; view := f (view c); seen := seen c ++ [disk c] |}.

(** [conn.commit()] *)
Definition commit (c : connection) : connection :=
  {| disk := view c; view := view c; seen := seen c ++ [view c] |}.

(** What a db.py function leaves behind: its result, the committed database
    and the committed states that were observable meanwhile. A connection
    dropped without commit loses its view. *)
Record run (A : Type) : Type := mk_run {
  result : outcome A;
  final : database;
  observable : list database
}.
Arguments mk_run {A}.
Arguments result {A}.
Arguments final {A}.
Arguments observable {A}.

Definition finish {A : Type} (r : outcome A) (c : connection) : run A :=
  mk_run r (disk c) (seen c).

(** ** db.py: operations *)

(** The keyword arguments of [create_memory]. *)
Record create_args : Type := mk_create_args {
  arg_title : value;
  arg_text : value;
  arg_date : value;
  arg_location : value;
  arg_sentiment : value;
  arg_media_path : value;
  arg_media_type : value;
  arg_person : value
}.

Definition new_row (now : Z) (k : Z) (a : create_args) : Memories.row :=
  Memories.mk k (arg_title a) (arg_text a) (arg_date a) (arg_location a)
    (arg_sentiment a) (arg_media_path a) (arg_media_type a) (arg_person a)
    now now.

(** INSERT INTO memories (...) VALUES (?, ?, ?, ?, ?, ?, ?, ?), with its
    trigger. *)
Definition insert_statement (r : Memories.row) (d : database) : database :=
  memories_fts_insert r (table_insert r d).

Definition create_memory (now : Z) (a : create_args) (d : database) : run Z :=
  let conn := get_db_connection d in
  let memory_id := next_rowid (view conn) in
  let r := new_row now memory_id a in
  if constraints_ok r then
    let conn := execute (insert_statement r) conn in
    let conn := commit conn in
    finish (Return memory_id) conn
  else
    finish (Raise "IntegrityError") conn.

Definition get_memory_by_id (memory_id : Z) (d : database) : option Memories.row :=
  memories d !! memory_id.

(** The allow-list of [update_memory]. *)
Definition updatable : list string :=
  ["title"; "text"; "date"; "location"; "sentiment"; "person"].

(** [SET key = ?] on one row. *)
Definition set_column (key : string) (v : value) (r : Memories.row) : Memories.row :=
  let '(Memories.mk i ti te da lo se mp mt pe ca ua) := r in
  if String.eqb key "title" then Memories.mk i v te da lo se mp mt pe ca ua
  else if String.eqb key "text" then Memories.mk i ti v da lo se mp mt pe ca ua
  else if String.eqb key "date" then Memories.mk i ti te v lo se mp mt pe ca ua
  else if String.eqb key "location" then Memories.mk i ti te da v se mp mt pe ca ua
  else if String.eqb key "sentiment" then Memories.mk i ti te da lo v mp mt pe ca ua
  else if String.eqb key "media_path" then Memories.mk i ti te da lo se v mt pe ca ua
  else if String.eqb key "media_type" then Memories.mk i ti te da lo se mp v pe ca ua
  else if String.eqb key "person" then Memories.mk i ti te da lo se mp mt v ca ua
  else r.

(** Reading a column by name. *)
Definition get_column (key : string) (r : Memories.row) : option value :=
  if String.eqb key "title" then Some (Memories.title r)
  else if String.eqb key "text" then Some (Memories.text r)
  else if String.eqb key "date" then Some (Memories.date r)
  else if String.eqb key "location" then Some (Memories.location r)
  else if String.eqb key "sentiment" then Some (Memories.sentiment r)
  else if String.eqb key "media_path" then Some (Memories.media_path r)
  else if String.eqb key "media_type" then Some (Memories.media_type r)
  else if String.eqb key "person" then Some (Memories.person r)
  else None.

Definition set_updated_at (now : Z) (r : Memories.row) : Memories.row :=
  let '(Memories.mk i ti te da lo se mp mt pe ca _) := r in
  Memories.mk i ti te da lo se mp mt pe ca now.

(** The loop over [kwargs.items()]: the pairs whose key is on the
    allow-list. The keys of a dict are distinct, so the order of the
    assignments does not matter. *)
Definition set_clauses (kwargs : gmap string value) : list (string * value) :=
  filter (fun kv => kv.1 ∈ updatable) (map_to_list kwargs).

Definition apply_clauses (cl : list (string * value)) (r : Memories.row) : Memories.row :=
  foldr (fun kv acc => set_column kv.1 kv.2 acc) r cl.

(** UPDATE memories SET ..., updated_at = CURRENT_TIMESTAMP WHERE id = ?,
    with its trigger. *)
Definition update_statement (new : Memories.row) (d : database) : database :=
  memories_fts_update new (table_update new d).

Definition update_memory (now : Z) (memory_id : Z) (kwargs : gmap string value)
    (d : database) : run bool :=
  let conn := get_db_connection d in
  let cl := set_clauses kwargs in
  match cl with
  | [] => finish (Return false) conn
  | _ :: _ =>
    match memories (view conn) !! memory_id with
    | None =>
      (* no row matches: rowcount = 0 *)
      let conn := execute (fun v => v) conn in
      let conn := commit conn in
      finish (Return false) conn
    | Some old =>
      let new := set_updated_at now (apply_clauses cl old) in
      if constraints_ok new then
        let conn := execute (update_statement new) conn in
        let conn := commit conn in
        finish (Return true) conn
      else
        finish (Raise "IntegrityError") conn
    end
  end.

(** DELETE FROM memories WHERE id = ?, with its trigger. *)
Definition delete_statement (old : Memories.row) (d : database) : database :=
  memories_fts_delete old (table_delete (Memories.id old) d).

(** The uploads directory: path to file content. *)
Abbreviation files := (gmap string string).

(** [os.remove] inside its try/except: [remove_fails] says whether the
    call raises, in which case the file stays. *)
Definition remove_media (remove_fails : string -> bool) (v : value) (fs : files) : files :=
  match v with
  | VStr p =>
    if negb (String.eqb p "") && bool_decide (is_Some (fs !! p))
    then (if remove_fails p then fs else delete p fs)
    else fs
  | _ => fs
  end.

Definition delete_memory (remove_fails : string -> bool) (memory_id : Z)
    (d : database) (fs : files) : run bool * files :=
  let conn := get_db_connection d in
  (* SELECT media_path FROM memories WHERE id = ? *)
  let conn := execute (fun v => v) conn in
  match memories (view conn) !! memory_id with
  | None => (finish (Return false) conn, fs)
  | Some row =>
    let conn := execute (delete_statement row) conn in
    let conn := commit conn in
    (finish (Return true) conn, remove_media remove_fails (Memories.media_path row) fs)
  end.

(** *** Listing *)

(** LIMIT ? OFFSET ?: a negative limit is no limit, a negative offset is 0. *)
Definition sql_limit {A : Type} (limit offset : Z) (l : list A) : list A :=
  let rest := drop (Z.to_nat offset) l in
  if limit <? 0 then rest else take (Z.to_nat limit) rest.

Definition rowid_le (r1 r2 : Memories.row) : Prop :=
  Memories.id r1 <= Memories.id r2.

Definition created_at_desc (r1 r2 : Memories.row) : Prop :=
  Memories.created_at r2 <= Memories.created_at r1.

#[global] Instance rowid_le_dec r1 r2 : Decision (rowid_le r1 r2).
Proof. unfold rowid_le. apply _. Defined.

#[global] Instance created_at_desc_dec r1 r2 : Decision (created_at_desc r1 r2).
Proof. unfold created_at_desc. apply _. Defined.

(** The rows of [memories] in rowid order. *)
Definition table_rows (d : database) : list Memories.row :=
  merge_sort rowid_le (map snd (map_to_list (memories d))).

(** ORDER BY created_at DESC names one key. The statement does not say in
    which order rows with the same key come out: that is the order in which
    the engine happens to visit them (a table scan, an index scan forwards
    or backwards). [plan] is that visiting order. *)
Definition order_by_created_at_desc (plan : list Memories.row -> list Memories.row)
    (rows : list Memories.row) : list Memories.row :=
  merge_sort created_at_desc (plan rows).

(** A scan of the table by ascending rowid. *)
Definition rowid_scan (rows : list Memories.row) : list Memories.row := rows.

(** SELECT * FROM memories ORDER BY created_at DESC LIMIT ? OFFSET ? *)
Definition get_all_memories (plan : list Memories.row -> list Memories.row)
    (limit offset : Z) (d : database) : list Memories.row :=
  sql_limit limit offset (order_by_created_at_desc plan (table_rows d)).

(** *** Full-text search *)

(** The FTS5 side of the SELECT in [search_memories]:
    - [fts_match q] is [memories_fts MATCH q]; it raises on a query FTS5
      cannot parse;
    - [fts_rank] is the hidden [rank] column (bm25 over the whole index,
      smaller is better);
    - [fts_snippet e col q n] is
      [snippet(memories_fts, col, '<mark>', '</mark>', '...', n)] on index
      row [e]: NULL or a text, [col] counted from 0. *)
Record fts5_engine : Type := mk_engine {
  fts_match : string -> outcome (Fts.row -> bool);
  fts_rank : gmap Z Fts.row -> string -> Z -> Q;
  fts_snippet : Fts.row -> Z -> string -> Z -> option string
}.

(** One row of the SELECT: the columns of [m] and the two snippets. *)
Record search_row : Type := mk_search_row {
  sr_m : Memories.row;
  sr_title_snippet : option string;
  sr_text_snippet : option string
}.

(** An element of the list [search_memories] returns. *)
Record search_result : Type := mk_search_result {
  res_id : Z;
  res_title : value;
  res_snippet : value;
  res_date : value;
  res_sentiment : value;
  res_media_type : value;
  res_media_path : value
}.

(** FROM memories_fts JOIN memories m ON memories_fts.rowid = m.id
    WHERE memories_fts MATCH ?: the joined pairs, by ascending rowid. *)
Definition search_candidates (matches : Fts.row -> bool) (d : database)
    : list (Memories.row * Fts.row) :=
  omap (fun m =>
          match memories_fts d !! Memories.id m with
          | Some e => if matches e then Some (m, e) else None
          | None => None
          end)
       (table_rows d).

Definition rank_le (eng : fts5_engine) (d : database) (q : string)
    (x y : Memories.row * Fts.row) : Prop :=
  Qle (fts_rank eng (memories_fts d) q (Memories.id x.1))
      (fts_rank eng (memories_fts d) q (Memories.id y.1)).

#[global] Instance rank_le_dec eng d q x y : Decision (rank_le eng d q x y).
Proof.
  unfold rank_le.
  destruct (Qlt_le_dec (fts_rank eng (memories_fts d) q (Memories.id y.1))
                       (fts_rank eng (memories_fts d) q (Memories.id x.1))) as [H|H].
  - right. intro H'. exact (Qlt_not_le _ _ H H').
  - left. exact H.
Defined.

(** The SELECT of [search_memories]. The snippet calls are the source's:
    column 1 under the name [title_snippet] with 32 tokens, column 2 under
    the name [text_snippet] with 64. *)
Definition search_select (eng : fts5_engine) (query : string) (limit : Z)
    (d : database) : outcome (list search_row) :=
  match fts_match eng query with
  | Raise e => Raise e
  | Return matches =>
    let ranked := merge_sort (rank_le eng d query) (search_candidates matches d) in
    Return (map (fun me =>
                   mk_search_row me.1
                     (fts_snippet eng me.2 1 query 32)
                     (fts_snippet eng me.2 2 query 64))
                (sql_limit limit 0 ranked))
  end.

(** Truthiness of a snippet column: not NULL and not empty. *)
Definition snippet_truthy (s : option string) : bool :=
  match s with
  | Some t => negb (String.eqb t "")
  | None => false
  end.

Definition snippet_str (s : option string) : string :=
  match s with Some t => t | None => "None" end.

(** The body of the loop over [cursor.fetchall()]. *)
Definition combine_snippets (row : search_row) : value :=
  let snippet_parts := [] in
  let snippet_parts :=
    if snippet_truthy (sr_title_snippet row)
    then snippet_parts ++ ["Title: " +:+ snippet_str (sr_title_snippet row)]
    else snippet_parts in
  let snippet_parts :=
    if snippet_truthy (sr_text_snippet row)
    then snippet_parts ++ ["Text: " +:+ snippet_str (sr_text_snippet row)]
    else snippet_parts in
  match snippet_parts with
  | [] => Memories.title (sr_m row)
  | _ :: _ => VStr (String.concat " | " snippet_parts)
  end.

Definition to_result (row : search_row) : search_result :=
  let m := sr_m row in
  {| res_id := Memories.id m;
     res_title := Memories.title m;
     res_snippet := combine_snippets row;
     res_date := Memories.date m;
     res_sentiment := Memories.sentiment m;
     res_media_type := Memories.media_type m;
     res_media_path := Memories.media_path m |}.

Definition search_memories (eng : fts5_engine) (query : string) (limit : Z)
    (d : database) : outcome (list search_result) :=
  match search_select eng query limit d with
  | Raise e => Raise e
  | Return rows => Return (map to_result rows)
  end.

(** ** String helpers (str methods of Python, on ASCII text) *)

Definition chars (s : string) : list ascii := list_ascii_of_string s.
Definition str (l : list ascii) : string := string_of_list_ascii l.

(** [c.isspace()]: \t \n \v \f \r, the separators 0x1c-0x1f and the space. *)
Definition isspace (c : ascii) : bool :=
  let n := nat_of_ascii c in
  ((9 <=? n) && (n <=? 13) || (28 <=? n) && (n <=? 32))%nat.

Definition isalnum (c : ascii) : bool :=
  let n := nat_of_ascii c in
  ((48 <=? n) && (n <=? 57) || (65 <=? n) && (n <=? 90)
   || (97 <=? n) && (n <=? 122))%nat.

Definition lower_char (c : ascii) : ascii :=
  let n := nat_of_ascii c in
  if ((65 <=? n) && (n <=? 90))%nat then ascii_of_nat (n + 32) else c.

(** [s.lower()] *)
Definition lower (s : string) : string := str (map lower_char (chars s)).

Fixpoint lstrip_chars (l : list ascii) : list ascii :=
  match l with
  | c :: l' => if isspace c then lstrip_chars l' else l
  | [] => []
  end.

(** [s.strip()] *)
Definition strip (s : string) : string :=
  str (rev (lstrip_chars (rev (lstrip_chars (chars s))))).

(** [s.split(sep)] for a one-character separator. *)
Fixpoint split_chars (sep : ascii) (l : list ascii) : list (list ascii) :=
  match l with
  | [] => [[]]
  | c :: l' =>
    if Ascii.eqb c sep then [] :: split_chars sep l'
    else match split_chars sep l' with
         | w :: ws => (c :: w) :: ws
         | [] => [[c]]
         end
  end.

Definition split (sep : ascii) (s : string) : list string :=
  map str (split_chars sep (chars s)).

(** [s.replace(a, b)] for one-character [a] and [b]. *)
Definition replace_char (a b : ascii) (s : string) : string :=
  str (map (fun c => if Ascii.eqb c a then b else c) (chars s)).

(** One call of [cleaned.replace('  ', ' ')]: left to right, without
    overlap. *)
Fixpoint replace_double_space (l : list ascii) : list ascii :=
  match l with
  | c1 :: l1 =>
    match l1 with
    | c2 :: l2 =>
      if Ascii.eqb c1 " " && Ascii.eqb c2 " "
      then " "%char :: replace_double_space l2
      else c1 :: replace_double_space l1
    | [] => [c1]
    end
  | [] => []
  end.

Fixpoint has_double_space (l : list ascii) : bool :=
  match l with
  | c1 :: l1 =>
    match l1 with
    | c2 :: _ => Ascii.eqb c1 " " && Ascii.eqb c2 " " || has_double_space l1
    | [] => false
    end
  | [] => false
  end.

(** [while '  ' in cleaned: cleaned = cleaned.replace('  ', ' ')]; every
    turn of the loop shortens the text, so its length bounds the turns. *)
Fixpoint squeeze_spaces (fuel : nat) (l : list ascii) : list ascii :=
  match fuel with
  | O => l
  | S fuel' =>
    if has_double_space l then squeeze_spaces fuel' (replace_double_space l) else l
  end.


Fixpoint take_while {A : Type} (p : A -> bool) (l : list A) : list A :=
  match l with
  | x :: l' => if p x then x :: take_while p l' else []
  | [] => []
  end.

(** [Path(name).suffix]: the last dot of the final path component and
    what follows, when the dot is neither first nor last in it. *)
Definition path_suffix (filename : string) : string :=
  let name := rev (take_while (fun c => negb (Ascii.eqb c "/")) (rev (chars filename))) in
  let ext_rev := take_while (fun c => negb (Ascii.eqb c ".")) (rev name) in
  let i := (length name - length ext_rev - 1)%nat in
  if ((length ext_rev <? length name) && (0 <? i) && (0 <? length ext_rev))%nat
  then str ("."%char :: rev ext_rev)
  else "".

(** ** The search engine of the spec's words *)

(** Modelled from the spec: the FTS5 tokenizer is not part of the
    repository; the spec gives its matching as token-based, case-insensitive,
    whitespace/punctuation-delimited, not substring. A token is a maximal run
    of letters and digits, folded to lower case. *)
Fixpoint tokens_from (cur : list ascii) (l : list ascii) : list string :=
  let flush := match cur with [] => [] | _ => [str (rev cur)] end in
  match l with
  | [] => flush
  | c :: l' =>
    if isalnum c then tokens_from (lower_char c :: cur) l'
    else flush ++ tokens_from [] l'
  end.

Definition tokenize (s : string) : list string := tokens_from [] (chars s).

(** A character of a token: a letter or digit that lower-casing keeps. *)
Definition token_char (c : ascii) : Prop :=
  isalnum c = true /\ lower_char c = c.

Definition value_tokens (v : value) : list string :=
  match v with VStr s => tokenize s | _ => [] end.

(** Modelled from the spec: a query matches an index row when it has at
    least one token and each of its tokens is a token of the row's title,
    text or person. *)
Definition token_match (query : string) (e : Fts.row) : bool :=
  let doc := value_tokens (Fts.title e) ++ value_tokens (Fts.text e)
             ++ value_tokens (Fts.person e) in
  let qs := tokenize query in
  negb (bool_decide (qs = [])) && forallb (fun t => bool_decide (t ∈ doc)) qs.

(** Modelled from the spec: a snippet wraps each matched term in the
    highlight markers. The window and its ellipsis are left out: the text of
    the column is given whole, which is what a window gives on a text
    shorter than itself. *)
Fixpoint highlight_from (qs : list string) (cur : list ascii) (l : list ascii)
    : list ascii :=
  let flush :=
    match cur with
    | [] => []
    | _ =>
      if bool_decide (str (map lower_char (rev cur)) ∈ qs)
      then chars "<mark>" ++ rev cur ++ chars "</mark>"
      else rev cur
    end in
  match l with
  | [] => flush
  | c :: l' =>
    if isalnum c then highlight_from qs (c :: cur) l'
    else flush ++ c :: highlight_from qs [] l'
  end.

Definition token_snippet (e : Fts.row) (col : Z) (query : string) (n : Z)
    : option string :=
  let v := if col =? 0 then Fts.title e
           else if col =? 1 then Fts.text e
           else if col =? 2 then Fts.person e else VNone in
  match v with
  | VStr s => Some (str (highlight_from (tokenize query) [] (chars s)))
  | _ => None
  end.

(** The token engine: the matcher and the snippet above, and a constant
    rank. *)
Definition token_engine : fts5_engine :=
  {| fts_match := fun q => Return (token_match q);
     fts_rank := fun _ _ _ => 0%Q;
     fts_snippet := token_snippet |}.

(** ** The collaborators *)

(** A raster image (a numpy array). *)
Definition image : Type := list (list Z).

(** Everything the backend calls but does not contain. A field of type
    [outcome _] may raise. *)
Record world : Type := mk_world {
  (** CURRENT_TIMESTAMP *)
  clock : Z;
  (** [uuid.uuid4()] as text *)
  uuid4 : string;
  (** [pytesseract.get_tesseract_version()] *)
  get_tesseract_version : outcome unit;
  (** [cv2.imread(path)]: None when the file cannot be read *)
  cv2_imread : string -> option image;
  (** [cv2.imread(path, cv2.IMREAD_GRAYSCALE)] *)
  cv2_imread_grayscale : string -> option image;
  cv2_cvtColor : image -> outcome image;
  cv2_GaussianBlur : image -> outcome image;
  cv2_adaptiveThreshold : image -> outcome image;
  cv2_morphologyEx : image -> outcome image;
  (** [pytesseract.image_to_string(image, config=..., lang='eng')] *)
  image_to_string : option image -> outcome string;
  (** [open(path, 'rb')] then [exifread.process_file(f, details=False)]:
      the tags, each already through [str()] *)
  exifread_process_file : string -> outcome (gmap string string);
  (** [whisper.load_model(model_size)] *)
  whisper_load_model : string -> outcome unit;
  (** [model.transcribe(audio_path)["text"]] *)
  whisper_transcribe : string -> outcome string;
  (** [TextBlob(text).sentiment.polarity] *)
  textblob_polarity : string -> outcome Q;
  (** [vader_analyzer.polarity_scores(text)['compound']] *)
  vader_compound : string -> outcome Q;
  (** [re.sub(pattern, repl, text)] *)
  re_sub : string -> string -> string -> string;
  (** whether [os.remove(path)] raises *)
  os_remove_fails : string -> bool
}.

#[global] Instance outcome_bind : MBind outcome :=
  fun A B k m =>
    match m with
    | Return a => k a
    | Raise e => Raise e
    end.

(** ** ocr_utils.py *)

Definition preprocess_image (w : world) (image_path : string) : option image :=
  let attempt :=
    match cv2_imread w image_path with
    | None => Raise ("Could not read image from " +:+ image_path)
    | Some img =>
      gray ← cv2_cvtColor w img;
      blurred ← cv2_GaussianBlur w gray;
      thresh ← cv2_adaptiveThreshold w blurred;
      cleaned ← cv2_morphologyEx w thresh;
      Return cleaned
    end in
  match attempt with
  | Return cleaned => Some cleaned
  | Raise _ => cv2_imread_grayscale w image_path
  end.

Definition clean_extracted_text (text : string) : string :=
  if String.eqb text "" then ""
  else
    let lines := map strip (split "010"%char text) in
    let lines := filter (fun line => line ≠ "") lines in
    let cleaned := String.concat " " lines in
    let cleaned := str (squeeze_spaces (String.length cleaned) (chars cleaned)) in
    strip cleaned.

Definition extract_text_from_image (w : world) (image_path : string) : string :=
  match get_tesseract_version w with
  | Raise _ => "OCR not available - Tesseract not installed"
  | Return _ =>
    let processed_image := preprocess_image w image_path in
    match image_to_string w processed_image with
    | Return extracted_text => clean_extracted_text extracted_text
    | Raise e => "Text extraction failed: " +:+ e
    end
  end.

Definition empty_exif : gmap string (option string) :=
  {[ "date" := None; "location" := None;
     "camera_make" := None; "camera_model" := None ]}.

(** "YYYY:MM:DD HH:MM:SS" to "YYYY-MM-DD" *)
Definition exif_date (date_str : string) : string :=
  let date_part := match split " " date_str with
                   | p :: _ => p
                   | [] => date_str
                   end in
  replace_char ":" "-" date_part.

Definition extract_exif_data (w : world) (image_path : string)
    : gmap string (option string) :=
  match exifread_process_file w image_path with
  | Raise _ => empty_exif
  | Return tags =>
    let exif_data := empty_exif in
    let exif_data :=
      match tags !! "EXIF DateTimeOriginal" with
      | Some date_str => <["date" := Some (exif_date date_str)]> exif_data
      | None =>
        match tags !! "Image DateTime" with
        | Some date_str => <["date" := Some (exif_date date_str)]> exif_data
        | None => exif_data
        end
      end in
    let exif_data :=
      match tags !! "Image Make" with
      | Some make => <["camera_make" := Some make]> exif_data
      | None => exif_data
      end in
    let exif_data :=
      match tags !! "Image Model" with
      | Some model => <["camera_model" := Some model]> exif_data
      | None => exif_data
      end in
    let exif_data :=
      match tags !! "GPS GPSLatitude", tags !! "GPS GPSLongitude" with
      | Some lat, Some lon =>
        <["location" := Some ("GPS: " +:+ lat +:+ ", " +:+ lon)]> exif_data
      | _, _ => exif_data
      end in
    exif_data
  end.

(** ** asr_utils.py *)

(** The module-level slot [_whisper_model]: loaded at most once. *)
Definition load_whisper_model (w : world) (model_size : string)
    (_whisper_model : option unit) : outcome unit * option unit :=
  match _whisper_model with
  | Some m => (Return m, _whisper_model)
  | None =>
    match whisper_load_model w model_size with
    | Return m => (Return m, Some m)
    | Raise e => (Raise e, None)
    end
  end.

Definition transcribe_audio (w : world) (fs : files) (audio_path : string)
    (_whisper_model : option unit) : string * option unit :=
  if bool_decide (is_Some (fs !! audio_path)) then
    match load_whisper_model w "small" _whisper_model with
    | (Raise e, slot) => ("Transcription failed: " +:+ e, slot)
    | (Return _, slot) =>
      match whisper_transcribe w audio_path with
      | Return t => (strip t, slot)
      | Raise e => ("Transcription failed: " +:+ e, slot)
      end
    end
  else
    ("Transcription failed: " +:+ ("Audio file not found: " +:+ audio_path),
     _whisper_model).

(** ** sentiment_utils.py *)

(** A call into sentiment_utils or into one of its two scoring
    libraries. *)
Inductive scorer_call : Type :=
| AnalyzeSentimentCall (text : string)
| TextBlobCall (text : string)
| VaderCall (text : string).

Definition get_textblob_sentiment (w : world) (text : string) : Q * list scorer_call :=
  (match textblob_polarity w text with Return q => q | Raise _ => 0%Q end,
   [TextBlobCall text]).

Definition get_vader_sentiment (w : world) (text : string) : Q * list scorer_call :=
  (match vader_compound w text with Return q => q | Raise _ => 0%Q end,
   [VaderCall text]).

Definition clean_text_for_sentiment (w : world) (text : string) : string :=
  if String.eqb text "" then ""
  else
    let text := re_sub w "\s+" " " (strip text) in
    let text := re_sub w "http[s]?://(?:[a-zA-Z]|[0-9]|[$-_@.&+]|[!*\\(\\),]|(?:%[0-9a-fA-F][0-9a-fA-F]))+" "" text in
    let text := re_sub w "\S+@\S+" "" text in
    let text := re_sub w "\b\d{3}[-.]?\d{3}[-.]?\d{4}\b" "" text in
    let text := re_sub w "[!]{2,}" "!" text in
    let text := re_sub w "[?]{2,}" "?" text in
    let text := re_sub w "[.]{2,}" "." text in
    strip text.

(** [round(x, 2)]: to the nearest hundredth, a tie to the even one. *)
Definition round2 (x : Q) : Q :=
  let y := (x * 100)%Q in
  let n := Qfloor y in
  let frac := (y - inject_Z n)%Q in
  let r := match Qcompare frac (1 # 2) with
           | Lt => n
           | Gt => n + 1
           | Eq => if Z.even n then n else n + 1
           end in
  (inject_Z r / 100)%Q.

(** [text] is None or a str. The second component lists the calls that
    reached a scoring library. *)
Definition analyze_sentiment (w : world) (text : option string) : Q * list scorer_call :=
  match text with
  | None => (0%Q, [])
  | Some text =>
    if String.eqb text "" || String.eqb (strip text) "" then (0%Q, [])
    else
      let cleaned_text := clean_text_for_sentiment w text in
      if String.eqb cleaned_text "" then (0%Q, [])
      else
        let '(textblob_score, c1) := get_textblob_sentiment w cleaned_text in
        let '(vader_score, c2) := get_vader_sentiment w cleaned_text in
        let final_score := ((textblob_score + vader_score) / 2)%Q in
        (round2 final_score, c1 ++ c2)
  end.

(** ** app.py *)

(** An [UploadFile]. *)
Record upload_file : Type := mk_upload_file {
  content_type : option string;
  filename : string;
  file_bytes : string
}.

(** What the endpoints act on: the database file, the uploads directory
    and the slot of asr_utils. *)
Record app_state : Type := mk_app_state {
  db : database;
  uploads : files;
  whisper_slot : option unit
}.

(** What a route hands back: a JSONResponse, or an HTTPException that the
    framework turns into an error response. *)
Inductive response (A : Type) : Type :=
| JSONResponse (status_code : Z) (content : A)
| HTTPException (status_code : Z) (detail : string).
Arguments JSONResponse {A} status_code content.
Arguments HTTPException {A} status_code detail.

(** The "memory" object of the upload response. *)
Record uploaded_memory : Type := mk_uploaded_memory {
  um_id : Z;
  um_title : string;
  um_text : string;
  um_date : value;
  um_location : value;
  um_sentiment : Q;
  um_media_path : string;
  um_media_type : string
}.

Definition opt_value (o : option string) : value :=
  match o with Some s => VStr s | None => VNone end.

(** [exif_data.get(key)] *)
Definition exif_get (key : string) (exif_data : gmap string (option string)) : value :=
  match exif_data !! key with
  | Some (Some s) => VStr s
  | _ => VNone
  end.

(** [str(e)] of an HTTPException: status code and detail. *)
Definition http_str (code detail : string) : string := code +:+ ": " +:+ detail.

(** "Process the file based on type": the text, date and location taken
    from the saved file, and the slot of asr_utils afterwards. *)
Definition process_file (w : world) (is_image : bool) (file_path : string)
    (fs : files) (slot : option unit) : string * value * value * option unit :=
  if is_image then
    let extracted_text := extract_text_from_image w file_path in
    let exif_data := extract_exif_data w file_path in
    (extracted_text, exif_get "date" exif_data, exif_get "location" exif_data, slot)
  else
    let '(extracted_text, slot) := transcribe_audio w fs file_path slot in
    (extracted_text, VNone, VNone, slot).

(** [analyze_sentiment(extracted_text) if extracted_text else 0.0], with
    the calls made: the one to analyze_sentiment, then those that reached a
    scoring library. *)
Definition score_text (w : world) (extracted_text : string) : Q * list scorer_call :=
  if negb (String.eqb extracted_text "")
  then
    let '(score, calls) := analyze_sentiment w (Some extracted_text) in
    (score, AnalyzeSentimentCall extracted_text :: calls)
  else (0%Q, []).

Definition upload_error (code detail : string) : response uploaded_memory :=
  HTTPException 500 ("Upload failed: " +:+ http_str code detail).

(** The body of [upload_memory]: the route function once the framework
    has bound [file], [title] and [person]. An HTTPException raised inside
    the try block is caught by its [except Exception] and raised again
    with status 500. The third component lists the calls made for the
    sentiment score. *)
Definition upload_memory (w : world) (file : upload_file) (title : string)
    (person : option string) (st : app_state)
    : response uploaded_memory * app_state * list scorer_call :=
  match content_type file with
  | None => (upload_error "400" "File type not detected", st, [])
  | Some ct =>
    if String.eqb ct "" then (upload_error "400" "File type not detected", st, [])
    else
      let is_image := String.prefix "image/" ct in
      let is_audio := String.prefix "audio/" ct in
      if negb (is_image || is_audio) then
        (upload_error "400"
           "Only image (JPEG, PNG) and audio (MP3, WAV) files are supported",
         st, [])
      else
        let file_extension := lower (path_suffix (filename file)) in
        let safe_filename := uuid4 w +:+ file_extension in
        let file_path := "uploads/" +:+ safe_filename in
        let fs := <[file_path := file_bytes file]> (uploads st) in
        let '(extracted_text, extracted_date, extracted_location, slot) :=
          process_file w is_image file_path fs (whisper_slot st) in
        let '(sentiment_score, calls) := score_text w extracted_text in
        let media_path := "/media/uploads/" +:+ safe_filename in
        let media_type := if is_image then "image" else "audio" in
        let created :=
          create_memory (clock w)
            {| arg_title := VStr title;
               arg_text := VStr extracted_text;
               arg_date := extracted_date;
               arg_location := extracted_location;
               arg_sentiment := VFloat sentiment_score;
               arg_media_path := VStr media_path;
               arg_media_type := VStr media_type;
               arg_person := opt_value person |}
            (db st) in
        match result created with
        | Return memory_id =>
          (JSONResponse 200
             {| um_id := memory_id;
                um_title := title;
                um_text := extracted_text;
                um_date := extracted_date;
                um_location := extracted_location;
                um_sentiment := sentiment_score;
                um_media_path := media_path;
                um_media_type := media_type |},
           {| db := final created; uploads := fs; whisper_slot := slot |},
           calls)
        | Raise e =>
          (* the file was saved: file_path.unlink() *)
          (HTTPException 500 ("Upload failed: " +:+ e),
           {| db := final created; uploads := delete file_path fs; whisper_slot := slot |},
           calls)
        end
  end.

(** The multipart form of POST /api/upload as it arrives. *)
Record upload_form : Type := mk_upload_form {
  form_file : option upload_file;
  form_title : option string;
  form_person : option string
}.

(** Modelled from the spec: the binding of [title: str = Form(...)] is the
    framework's, not the repository's. The spec gives it as: `title` must be
    non-empty; failure is a ValidationError to the caller, before any side
    effect. So a required form field that is absent or empty has no value. *)
Definition form_required (field : option string) : option string :=
  match field with
  | Some s => if String.eqb s "" then None else Some s
  | None => None
  end.

(** [person: Optional[str] = Form(None)]: an absent or empty field is the
    default None. *)
Definition form_optional (field : option string) : option string :=
  form_required field.

(** POST /api/upload: the framework's binding, then the route function.
    Status 422 is the framework's validation error ([test_upload_missing_title]). *)
Definition post_api_upload (w : world) (form : upload_form) (st : app_state)
    : response uploaded_memory * app_state * list scorer_call :=
  match form_file form, form_required (form_title form) with
  | Some file, Some title =>
    upload_memory w file title (form_optional (form_person form)) st
  | _, _ => (HTTPException 422 "Field required", st, [])
  end.

(** GET /api/memory/{memory_id} *)
Definition get_memory (memory_id : Z) (st : app_state) : response Memories.row :=
  match get_memory_by_id memory_id (db st) with
  | Some memory => JSONResponse 200 memory
  | None => HTTPException 404 "Memory not found"
  end.


(** An element of "memories" in the answer of GET /api/memories: the nine
    selected columns. *)
Record listed_memory : Type := mk_listed_memory {
  lm_id : Z;
  lm_title : value;
  lm_text : value;
  lm_date : value;
  lm_location : value;
  lm_sentiment : value;
  lm_media_path : value;
  lm_media_type : value;
  lm_created_at : Z
}.

Definition to_listed (m : Memories.row) : listed_memory :=
  {| lm_id := Memories.id m;
     lm_title := Memories.title m;
     lm_text := Memories.text m;
     lm_date := Memories.date m;
     lm_location := Memories.location m;
     lm_sentiment := Memories.sentiment m;
     lm_media_path := Memories.media_path m;
     lm_media_type := Memories.media_type m;
     lm_created_at := Memories.created_at m |}.

(** GET /api/memories: the same ORDER BY created_at DESC LIMIT ? OFFSET ?
    as [get_all_memories], on nine columns; the answer carries the list and
    its length. *)
Definition list_memories (plan : list Memories.row -> list Memories.row)
    (limit offset : Z) (st : app_state) : response (list listed_memory * nat) :=
  let memories :=
    map to_listed (sql_limit limit offset (order_by_created_at_desc plan (table_rows (db st)))) in
  JSONResponse 200 (memories, length memories).

(** ** Properties of a database *)

(** Every row sits under its own id and meets the column constraints. *)
Definition well_formed (d : database) : Prop :=
  forall k r, memories d !! k = Some r ->
    Memories.id r = k /\ constraints_ok r = true.

(** The index row under a rowid is there exactly when the record is, and
    holds the record's title, text and person. *)
Definition fts_synced (d : database) : Prop :=
  forall k, memories_fts d !! k = fts_values <$> memories d !! k.

Definition consistent (d : database) : Prop :=
  well_formed d /\ fts_synced d.



(** The contract of the two scoring libraries: a polarity and a compound
    score lie in [-1, 1]. *)
Definition scorers_bounded (w : world) : Prop :=
  (forall t q, textblob_polarity w t = Return q -> (-1 <= q <= 1)%Q)
  /\ (forall t q, vader_compound w t = Return q -> (-1 <= q <= 1)%Q).

(** Absent, empty or whitespace-only text. *)
Definition blank (text : option string) : Prop :=
  match text with
  | None => True
  | Some s => strip s = ""
  end.


(** ** Sample inputs *)

Definition summer_trip : create_args :=
  {| arg_title := VStr "Summer Trip";
     arg_text := VStr "We visited the lake and it was wonderful";
     arg_date := VNone;
     arg_location := VNone;
     arg_sentiment := VFloat 0.5;
     arg_media_path := VStr "/media/uploads/a.jpg";
     arg_media_type := VStr "image";
     arg_person := VNone |}.

Definition winter_walk : create_args :=
  {| arg_title := VStr "Winter Walk";
     arg_text := VStr "Snow on the hills";
     arg_date := VNone;
     arg_location := VNone;
     arg_sentiment := VFloat 0.25;
     arg_media_path := VStr "/media/uploads/b.wav";
     arg_media_type := VStr "audio";
     arg_person := VStr "Ann" |}.

(** One record, created at second 100. *)
Definition one_memory : database :=
  final (create_memory 100 summer_trip init_database).


(** Two records created within the same second. *)
Definition same_second : database :=
  final (create_memory 100 winter_walk one_memory).

Definition jpeg_upload : upload_file :=
  {| content_type := Some "image/jpeg";
     filename := "test_image.jpg";
     file_bytes := "JFIF" |}.

Definition wav_upload : upload_file :=
  {| content_type := Some "audio/wav";
     filename := "test_audio.wav";
     file_bytes := "RIFF" |}.

Definition fresh_app : app_state :=
  {| db := init_database; uploads := ∅; whisper_slot := None |}.

(** A machine on which nothing works: no Tesseract, unreadable files, no
    Whisper model, scoring libraries that raise. *)
Definition broken_world : world :=
  {| clock := 100;
     uuid4 := "0c3e";
     get_tesseract_version := Raise "tesseract is not installed";
     cv2_imread := fun _ => None;
     cv2_imread_grayscale := fun _ => None;
     cv2_cvtColor := fun _ => Raise "cvtColor";
     cv2_GaussianBlur := fun _ => Raise "GaussianBlur";
     cv2_adaptiveThreshold := fun _ => Raise "adaptiveThreshold";
     cv2_morphologyEx := fun _ => Raise "morphologyEx";
     image_to_string := fun _ => Raise "image_to_string";
     exifread_process_file := fun _ => Raise "No such file";
     whisper_load_model := fun _ => Raise "no model";
     whisper_transcribe := fun _ => Raise "transcribe";
     textblob_polarity := fun _ => Raise "textblob";
     vader_compound := fun _ => Raise "vader";
     re_sub := fun _ _ t => t;
     os_remove_fails := fun _ => true |}.

(** A machine on which everything works. *)
Definition working_world : world :=
  {| clock := 100;
     uuid4 := "0c3e";
     get_tesseract_version := Return tt;
     cv2_imread := fun _ => Some [[0]];
     cv2_imread_grayscale := fun _ => Some [[0]];
     cv2_cvtColor := fun i => Return i;
     cv2_GaussianBlur := fun i => Return i;
     cv2_adaptiveThreshold := fun i => Return i;
     cv2_morphologyEx := fun i => Return i;
     image_to_string := fun _ => Return "A lovely day";
     exifread_process_file := fun _ =>
       Return {[ "EXIF DateTimeOriginal" := "2023:07:15 14:30:00";
                 "Image Make" := "Canon" ]};
     whisper_load_model := fun _ => Return tt;
     whisper_transcribe := fun _ => Return " hello there ";
     textblob_polarity := fun _ => Return (1 # 2);
     vader_compound := fun _ => Return (3 # 4);
     re_sub := fun _ _ t => t;
     os_remove_fails := fun _ => false |}.



Definition empty_title_form : upload_form :=
  {| form_file := Some jpeg_upload; form_title := Some ""; form_person := None |}.

(** ** db.py: statistics *)

(** What [get_database_stats] returns. *)
Record database_stats : Type := mk_database_stats {
  total_memories : nat;
  by_type : gmap string nat;
  average_sentiment : Q;
  database_size_mb : Q
}.

(** SELECT media_type, COUNT( * ) FROM memories GROUP BY media_type, as the
    dict the comprehension builds. The CHECK constraint lets only the texts
    'image' and 'audio' into the column, so a group key is a text. *)
Definition count_by_type (rows : list Memories.row) : gmap string nat :=
  foldr (fun r acc =>
           match Memories.media_type r with
           | VStr s => <[s := S (default O (acc !! s))]> acc
           | _ => acc
           end)
        ∅ rows.

(** The number of rows of one media type. *)
Definition count_of_type (s : string) (rows : list Memories.row) : nat :=
  length (List.filter (fun r => match Memories.media_type r with
                                | VStr t => String.eqb t s
                                | _ => false
                                end) rows).

(** A sentiment as upload_memory stores it: a float in [-1, 1], or NULL. *)
Definition sentiment_in_range (v : value) : Prop :=
  match v with
  | VNone => True
  | VFloat q => (-1 <= q <= 1)%Q
  | _ => False
  end.

(** The number AVG sees in a value that is not NULL: a text that is not a
    number counts as 0.0. *)
Definition sql_number (v : value) : option Q :=
  match v with
  | VNone => None
  | VFloat q => Some q
  | VInt z => Some (inject_Z z)
  | VStr _ => Some 0%Q
  end.

Definition Qsum (l : list Q) : Q := foldr Qplus 0%Q l.

(** SELECT AVG(sentiment) FROM memories WHERE sentiment IS NOT NULL: NULL
    when no row qualifies. *)
Definition sql_avg (vs : list value) : option Q :=
  match omap sql_number vs with
  | [] => None
  | qs => Some (Qsum qs / inject_Z (Z.of_nat (length qs)))%Q
  end.

(** [db_file_size] is [os.path.getsize(DATABASE_PATH)], or None when the
    file does not exist. *)
Definition get_database_stats (db_file_size : option Z) (d : database)
    : database_stats :=
  let rows := table_rows d in
  let avg_sentiment :=
    match sql_avg (map Memories.sentiment rows) with
    | Some q => if Qeq_bool q 0 then 0%Q else q
    | None => 0%Q
    end in
  let db_size := match db_file_size with Some n => n | None => 0 end in
  {| total_memories := size (memories d);
     by_type := count_by_type rows;
     average_sentiment := round2 avg_sentiment;
     database_size_mb := round2 (inject_Z db_size / inject_Z (1024 * 1024)) |}.

(** ** Sequences of store operations *)

Inductive store_op : Type :=
| OpCreate (now : Z) (a : create_args)
| OpUpdate (now : Z) (memory_id : Z) (kwargs : gmap string value)
| OpDelete (remove_fails : string -> bool) (memory_id : Z).

Definition apply_op (op : store_op) (s : database * files) : database * files :=
  match op with
  | OpCreate now a => (final (create_memory now a s.1), s.2)
  | OpUpdate now k kwargs => (final (update_memory now k kwargs s.1), s.2)
  | OpDelete rf k =>
    let r := delete_memory rf k s.1 s.2 in (final r.1, r.2)
  end.

Definition apply_ops (ops : list store_op) (s : database * files) : database * files :=
  foldl (fun s op => apply_op op s) s ops.


(** ** sentiment_utils.py: labels *)

Definition get_sentiment_label (score : Q) : string :=
  if Qle_bool 0.6 score then "Very Positive"
  else if Qle_bool 0.2 score then "Positive"
  else if Qle_bool (-0.2) score then "Neutral"
  else if Qle_bool (-0.6) score then "Negative"
  else "Very Negative".

Definition get_sentiment_emoji (score : Q) : string :=
  if Qle_bool 0.6 score then "😊"
  else if Qle_bool 0.2 score then "🙂"
  else if Qle_bool (-0.2) score then "😐"
  else if Qle_bool (-0.6) score then "😔"
  else "😢".

(** The dict of [analyze_sentiment_detailed]. *)
Record detailed_sentiment : Type := mk_detailed_sentiment {
  ds_score : Q;
  ds_label : string;
  ds_emoji : string;
  ds_textblob_score : Q;
  ds_vader_score : Q;
  ds_confidence : Q
}.

Definition neutral_sentiment : detailed_sentiment :=
  {| ds_score := 0; ds_label := "Neutral"; ds_emoji := "😐";
     ds_textblob_score := 0; ds_vader_score := 0; ds_confidence := 0 |}.

Definition analyze_sentiment_detailed (w : world) (text : option string)
    : detailed_sentiment * list scorer_call :=
  match text with
  | None => (neutral_sentiment, [])
  | Some text =>
    if String.eqb text "" || String.eqb (strip text) "" then (neutral_sentiment, [])
    else
      let cleaned_text := clean_text_for_sentiment w text in
      let '(textblob_score, c1) := get_textblob_sentiment w cleaned_text in
      let '(vader_score, c2) := get_vader_sentiment w cleaned_text in
      let final_score := ((textblob_score + vader_score) / 2)%Q in
      let confidence := (1 - Qabs (textblob_score - vader_score))%Q in
      ({| ds_score := round2 final_score;
          ds_label := get_sentiment_label final_score;
          ds_emoji := get_sentiment_emoji final_score;
          ds_textblob_score := round2 textblob_score;
          ds_vader_score := round2 vader_score;
          ds_confidence := round2 confidence |},
       c1 ++ c2)
  end.

(** The order of the five labels, from the most negative. *)
Definition label_rank (label : string) : Z :=
  if String.eqb label "Very Negative" then 0
  else if String.eqb label "Negative" then 1
  else if String.eqb label "Neutral" then 2
  else if String.eqb label "Positive" then 3
  else if String.eqb label "Very Positive" then 4
  else -1.

(** The emoji that goes with a label. *)
Definition label_emoji (label : string) : string :=
  if String.eqb label "Very Positive" then "😊"
  else if String.eqb label "Positive" then "🙂"
  else if String.eqb label "Neutral" then "😐"
  else if String.eqb label "Negative" then "😔"
  else "😢".

(** ** asr_utils.py: files *)

(** [l.rfind(c)], -1 when [c] does not occur. *)
Fixpoint rfind_from (c : ascii) (i : Z) (l : list ascii) : Z :=
  match l with
  | [] => -1
  | x :: l' =>
    let later := rfind_from c (i + 1) l' in
    if 0 <=? later then later else if Ascii.eqb x c then i else -1
  end.

Definition rfind (c : ascii) (l : list ascii) : Z := rfind_from c 0 l.

(** [os.path.splitext(p)] on a POSIX path: the extension starts at the
    last dot, when that dot comes after the last '/' and after some character
    of the file name that is not a dot. *)
Definition splitext (p : string) : string * string :=
  let l := chars p in
  let sepIndex := rfind "/" l in
  let dotIndex := rfind "." l in
  if sepIndex <? dotIndex then
    let leading := take (Z.to_nat (dotIndex - (sepIndex + 1)))
                        (drop (Z.to_nat (sepIndex + 1)) l) in
    if existsb (fun c => negb (Ascii.eqb c ".")) leading
    then (str (take (Z.to_nat dotIndex) l), str (drop (Z.to_nat dotIndex) l))
    else (p, "")
  else (p, "").

(** [os.path.basename(p)] *)
Definition basename (p : string) : string :=
  str (drop (Z.to_nat (rfind "/" (chars p) + 1)) (chars p)).

(** [os.path.getsize(path)]: the length of the file. *)
Definition getsize (fs : files) (path : string) : option Z :=
  (fun content => Z.of_nat (String.length content)) <$> fs !! path.

Definition valid_extensions : list string :=
  [".mp3"; ".wav"; ".m4a"; ".flac"; ".ogg"].

Definition validate_audio_file (fs : files) (audio_path : string) : bool :=
  match getsize fs audio_path with
  | None => false
  | Some file_size =>
    let max_size := 25 * 1024 * 1024 in
    if max_size <? file_size then false
    else
      let file_extension := lower (splitext audio_path).2 in
      bool_decide (file_extension ∈ valid_extensions)
  end.

(** The dict of [get_audio_info]; None stands for the empty dict of its
    except branch. *)
Record audio_info : Type := mk_audio_info {
  file_size_bytes : Z;
  file_size_mb : Q;
  file_extension : string;
  file_name : string
}.

Definition get_audio_info (fs : files) (audio_path : string) : option audio_info :=
  match getsize fs audio_path with
  | None => None
  | Some file_size =>
    Some {| file_size_bytes := file_size;
            file_size_mb := round2 (inject_Z file_size / inject_Z (1024 * 1024));
            file_extension := lower (splitext audio_path).2;
            file_name := basename audio_path |}
  end.

(** [preprocess_audio] hands the path back. *)
Definition preprocess_audio (audio_path : string) : string := audio_path.


(** * Proofs *)

(** ** Rows, columns and the allow-list *)






(** ** The invariant of the store *)

(** Closes [Forall P l] for an explicit list [l] whose elements satisfy
    [P] by hypothesis. *)
Ltac all_observed :=
  simpl; repeat (constructor; [assumption|]); constructor.

Lemma init_database_consistent : consistent init_database.
Proof.
  split.
  - intros k r H. simpl in H. now rewrite lookup_empty in H.
  - intros k. simpl. now rewrite !lookup_empty.
Qed.

(** In a consistent store the index has exactly the rowids of the
    records. *)
Lemma consistent_dom d : consistent d -> dom (memories_fts d) = dom (memories d).
Proof.
  intros [_ Hs]. apply set_eq. intros k. rewrite !elem_of_dom, Hs.
  destruct (memories d !! k); simpl; split; intros [x Hx]; eauto; discriminate.
Qed.

Lemma insert_statement_consistent r d :
  constraints_ok r = true -> consistent d -> consistent (insert_statement r d).
Proof.
  intros Hc [Hwf Hs]. split.
  - intros k r' H. simpl in H.
    destruct (decide (Memories.id r = k)) as [<-|Hne].
    + rewrite lookup_insert_eq in H. now inversion H; subst.
    + rewrite lookup_insert_ne in H by assumption. now apply Hwf.
  - intros k. simpl.
    destruct (decide (Memories.id r = k)) as [<-|Hne].
    + now rewrite !lookup_insert_eq.
    + rewrite !lookup_insert_ne by assumption. apply Hs.
Qed.


Lemma delete_statement_consistent old d :
  consistent d -> consistent (delete_statement old d).
Proof.
  intros [Hwf Hs]. split.
  - intros k r' H. simpl in H.
    destruct (decide (Memories.id old = k)) as [<-|Hne].
    + now rewrite lookup_delete_eq in H.
    + rewrite lookup_delete_ne in H by assumption. now apply Hwf.
  - intros k. simpl.
    destruct (decide (Memories.id old = k)) as [<-|Hne].
    + now rewrite !lookup_delete_eq.
    + rewrite !lookup_delete_ne by assumption. apply Hs.
Qed.

(** Inside the INSERT statement, between the write to [memories] and its
    trigger, the two tables do disagree: the invariant is about committed
    states. *)
Lemma table_insert_not_synced :
  ~ fts_synced (table_insert (new_row 100 1 summer_trip) init_database).
Proof.
  intros H. specialize (H 1). simpl in H.
  rewrite lookup_empty in H. vm_compute in H. discriminate.
Qed.

Lemma create_memory_consistent now a d :
  consistent d ->
  consistent (final (create_memory now a d))
  /\ Forall consistent (observable (create_memory now a d)).
Proof.
  intros Hd. unfold create_memory.
  destruct (constraints_ok _) eqn:Hc; simpl.
  - pose proof (insert_statement_consistent _ _ Hc Hd) as Hi.
    split; [exact Hi|]. all_observed.
  - split; [exact Hd|]. all_observed.
Qed.


Lemma delete_memory_consistent rf k d fs :
  consistent d ->
  consistent (final (delete_memory rf k d fs).1)
  /\ Forall consistent (observable (delete_memory rf k d fs).1).
Proof.
  intros Hd. unfold delete_memory. simpl.
  destruct (memories d !! k) as [old|] eqn:Hold; simpl.
  - pose proof (delete_statement_consistent old _ Hd) as Hi.
    split; [exact Hi|]. all_observed.
  - split; [exact Hd|]. all_observed.
Qed.



(** ** Create, get and search *)

Lemma elem_of_table_rows d r :
  r ∈ table_rows d <-> exists k, memories d !! k = Some r.
Proof.
  unfold table_rows. rewrite merge_sort_Permutation, list_elem_of_In, in_map_iff.
  split.
  - intros [[k r'] [Heq Hin]]. simpl in Heq. subst r'.
    exists k. now apply elem_of_map_to_list, list_elem_of_In.
  - intros [k Hk]. exists (k, r). split; [reflexivity|].
    now apply list_elem_of_In, elem_of_map_to_list.
Qed.

Lemma elem_of_search_candidates matches d m e :
  (m, e) ∈ search_candidates matches d
  <-> (m ∈ table_rows d /\ memories_fts d !! Memories.id m = Some e
       /\ matches e = true).
Proof.
  unfold search_candidates. rewrite list_elem_of_omap. split.
  - intros [m' [Hin Hf]].
    destruct (memories_fts d !! Memories.id m') as [e'|] eqn:He; [|discriminate].
    destruct (matches e') eqn:Hm; [|discriminate].
    inversion Hf; subst. auto.
  - intros (Hin & He & Hm). exists m. split; [exact Hin|].
    now rewrite He, Hm.
Qed.


Lemma create_memory_returns now a d memory_id :
  result (create_memory now a d) = Return memory_id ->
  memory_id = next_rowid d
  /\ constraints_ok (new_row now memory_id a) = true
  /\ final (create_memory now a d) = insert_statement (new_row now memory_id a) d.
Proof.
  unfold create_memory. simpl.
  destruct (constraints_ok (new_row now (next_rowid d) a)) eqn:Hc; simpl;
    intros H; inversion H; subst. auto.
Qed.



(** *** The token engine finds whole tokens *)

Lemma lower_char_token c : isalnum c = true -> token_char (lower_char c).
Proof.
  destruct c as [[] [] [] [] [] [] [] []]; vm_compute; intros H;
    try discriminate; split; reflexivity.
Qed.

Lemma tokens_from_are_tokens l cur t :
  Forall token_char cur -> t ∈ tokens_from cur l ->
  exists u, t = str u /\ u <> [] /\ Forall token_char u.
Proof.
  revert cur. induction l as [|c l IH]; intros cur Hcur Ht.
  - simpl in Ht. destruct cur as [|x cur]; [now apply elem_of_nil in Ht|].
    apply list_elem_of_singleton in Ht. exists (rev (x :: cur)).
    split; [exact Ht|]. split.
    + simpl. intros H. now apply app_eq_nil in H as [_ H].
    + now apply Forall_rev.
  - simpl in Ht. destruct (isalnum c) eqn:Hc.
    + apply (IH (lower_char c :: cur)); [|exact Ht].
      constructor; [now apply lower_char_token|exact Hcur].
    + apply elem_of_app in Ht as [Ht|Ht].
      * destruct cur as [|x cur]; [now apply elem_of_nil in Ht|].
        apply list_elem_of_singleton in Ht. exists (rev (x :: cur)).
        split; [exact Ht|]. split.
        -- simpl. intros H. now apply app_eq_nil in H as [_ H].
        -- now apply Forall_rev.
      * apply (IH []); [constructor|exact Ht].
Qed.

Lemma tokens_from_token u cur :
  Forall token_char u -> (cur <> [] \/ u <> []) ->
  tokens_from cur u = [str (rev cur ++ u)].
Proof.
  revert cur. induction u as [|c u IH]; intros cur Hu Hne.
  - simpl. rewrite app_nil_r. destruct cur; [|reflexivity].
    destruct Hne; contradiction.
  - apply Forall_cons in Hu as [[Hc Hl] Hu]. simpl. rewrite Hc, Hl.
    rewrite (IH (c :: cur) Hu) by (left; discriminate).
    simpl. now rewrite <- app_assoc.
Qed.

Lemma tokenize_token s t : t ∈ tokenize s -> tokenize t = [t].
Proof.
  intros Ht. apply (tokens_from_are_tokens _ []) in Ht as (u & -> & Hne & Hu);
    [|constructor].
  unfold tokenize, chars, str. rewrite list_ascii_of_string_of_list_ascii.
  now rewrite (tokens_from_token u []) by auto.
Qed.

(** With the matcher of the spec, every token of the title or of the text
    of a record matches the record's index row. *)
Lemma token_match_whole_token a t :
  t ∈ value_tokens (arg_title a) ++ value_tokens (arg_text a) ->
  token_match t (Fts.mk (arg_title a) (arg_text a) (arg_person a)) = true.
Proof.
  intros Ht. unfold token_match. simpl.
  assert (Htok : tokenize t = [t]).
  { apply elem_of_app in Ht as [Ht|Ht].
    - destruct (arg_title a) as [|s| |]; simpl in Ht;
        try (now apply elem_of_nil in Ht). now apply (tokenize_token s).
    - destruct (arg_text a) as [|s| |]; simpl in Ht;
        try (now apply elem_of_nil in Ht). now apply (tokenize_token s). }
  rewrite Htok. simpl. rewrite andb_true_r. apply bool_decide_eq_true.
  rewrite app_assoc. apply elem_of_app. now left.
Qed.


(** ** Update *)





Lemma get_column_updatable key r :
  key ∈ updatable -> is_Some (get_column key r).
Proof.
  intros H. destruct r. unfold updatable in H.
  repeat (apply elem_of_cons in H as [->|H]); try (now apply elem_of_nil in H);
    simpl; eauto.
Qed.









Lemma update_memory_unfold now k kwargs d :
  update_memory now k kwargs d
  = match set_clauses kwargs with
    | [] => mk_run (Return false) d [d]
    | _ :: _ =>
      match memories d !! k with
      | None => mk_run (Return false) d [d; d; d]
      | Some old =>
        let new := set_updated_at now (apply_clauses (set_clauses kwargs) old) in
        if constraints_ok new
        then mk_run (Return true) (update_statement new d) [d; d; update_statement new d]
        else mk_run (Raise "IntegrityError") d [d]
      end
    end.
Proof.
  unfold update_memory. destruct (set_clauses kwargs) as [|kv cl]; [reflexivity|].
  simpl. destruct (memories d !! k); [|reflexivity].
  destruct (constraints_ok _); reflexivity.
Qed.


Lemma one_memory_consistent : consistent one_memory.
Proof.
  apply (create_memory_consistent 100 summer_trip init_database).
  exact init_database_consistent.
Qed.



(** ** Delete *)




(** ** Listing *)

#[local] Instance created_at_desc_trans : Transitive created_at_desc.
Proof. intros x y z. unfold created_at_desc. lia. Qed.

#[local] Instance created_at_desc_total : Total created_at_desc.
Proof. intros x y. unfold created_at_desc. lia. Qed.




Lemma sql_limit_subseteq {A} limit offset (l : list A) :
  sql_limit limit offset l ⊆ l.
Proof.
  unfold sql_limit. destruct (limit <? 0).
  - apply subseteq_drop.
  - etransitivity; [apply subseteq_take|apply subseteq_drop].
Qed.





(** ** Upload *)

Lemma prefix_nonempty p ct :
  p <> "" -> String.prefix p ct = true -> String.eqb ct "" = false.
Proof.
  intros Hp H. destruct ct; [|reflexivity].
  destruct p; [contradiction|discriminate].
Qed.

(** An upload whose declared type is image/... or audio/... goes all the
    way to the insert. *)
Lemma upload_memory_accepted w file title person st ct :
  content_type file = Some ct ->
  String.prefix "image/" ct || String.prefix "audio/" ct = true ->
  let is_image := String.prefix "image/" ct in
  let safe_filename := uuid4 w +:+ lower (path_suffix (filename file)) in
  let fs := <["uploads/" +:+ safe_filename := file_bytes file]> (uploads st) in
  let p := process_file w is_image ("uploads/" +:+ safe_filename) fs (whisper_slot st) in
  let s := score_text w p.1.1.1 in
  let args :=
    {| arg_title := VStr title;
       arg_text := VStr p.1.1.1;
       arg_date := p.1.1.2;
       arg_location := p.1.2;
       arg_sentiment := VFloat s.1;
       arg_media_path := VStr ("/media/uploads/" +:+ safe_filename);
       arg_media_type := VStr (if is_image then "image" else "audio");
       arg_person := opt_value person |} in
  upload_memory w file title person st
  = (JSONResponse 200
       {| um_id := next_rowid (db st);
          um_title := title;
          um_text := p.1.1.1;
          um_date := p.1.1.2;
          um_location := p.1.2;
          um_sentiment := s.1;
          um_media_path := "/media/uploads/" +:+ safe_filename;
          um_media_type := if is_image then "image" else "audio" |},
     {| db := insert_statement (new_row (clock w) (next_rowid (db st)) args) (db st);
        uploads := fs;
        whisper_slot := p.2 |},
     s.2).
Proof.
  intros Hct Hkind. cbv zeta. unfold upload_memory. rewrite Hct.
  assert (Hne : String.eqb ct "" = false).
  { apply orb_prop in Hkind as [H|H];
      eapply prefix_nonempty; try exact H; discriminate. }
  rewrite Hne, Hkind. cbn [negb].
  destruct (process_file _ _ _ _ _) as [[[t dt] loc] slot]. cbn [fst snd].
  destruct (score_text w t) as [sc calls]. cbn [fst snd].
  unfold create_memory. cbn [view get_db_connection].
  assert (Hok : forall k,
             constraints_ok
               (new_row (clock w) k
                  {| arg_title := VStr title;
                     arg_text := VStr t;
                     arg_date := dt;
                     arg_location := loc;
                     arg_sentiment := VFloat sc;
                     arg_media_path :=
                       VStr ("/media/uploads/" +:+ uuid4 w
                             +:+ lower (path_suffix (filename file)));
                     arg_media_type :=
                       VStr (if String.prefix "image/" ct then "image" else "audio");
                     arg_person := opt_value person |}) = true).
  { intros k. unfold constraints_ok. simpl. now destruct (String.prefix "image/" ct). }
  rewrite Hok. reflexivity.
Qed.

Lemma saved_file_exists (fs : files) path bytes :
  bool_decide (is_Some (<[path := bytes]> fs !! path)) = true.
Proof. apply bool_decide_eq_true. rewrite lookup_insert_eq. eauto. Qed.

(** C3, as the code has it. For every upload declared image/... or
    audio/..., whatever the collaborators do, upload_memory answers 200 and
    the store holds the record under the returned id, with the uploaded
    title and the extracted text, date and location, and the file is kept.
    A collaborator that fails leaves its mark only in its own field:
    a failed EXIF read gives an absent date and location; a missing
    Tesseract, a failed OCR, a Whisper model that does not load or a failed
    transcription gives as text the message that says so. Audio never has a
    date or location. *)
Theorem upload_survives_extraction_failure (w : world) (file : upload_file)
    (title : string) (person : option string) (st : app_state) (ct : string) :
  content_type file = Some ct ->
  String.prefix "image/" ct || String.prefix "audio/" ct = true ->
  let path := "uploads/" +:+ uuid4 w +:+ lower (path_suffix (filename file)) in
  exists um st' calls,
    upload_memory w file title person st = (JSONResponse 200 um, st', calls)
    /\ (exists row,
         get_memory_by_id (um_id um) (db st') = Some row
         /\ Memories.title row = VStr title
         /\ Memories.text row = VStr (um_text um)
         /\ Memories.date row = um_date um
         /\ Memories.location row = um_location um)
    /\ uploads st' !! path = Some (file_bytes file)
    /\ (String.prefix "image/" ct = true ->
        (forall e, get_tesseract_version w = Raise e ->
           um_text um = "OCR not available - Tesseract not installed")
        /\ (forall u e, get_tesseract_version w = Return u ->
              image_to_string w (preprocess_image w path) = Raise e ->
              um_text um = "Text extraction failed: " +:+ e)
        /\ (forall e, exifread_process_file w path = Raise e ->
              um_date um = VNone /\ um_location um = VNone))
    /\ (String.prefix "image/" ct = false ->
        um_date um = VNone /\ um_location um = VNone
        /\ (forall e, whisper_slot st = None ->
              whisper_load_model w "small" = Raise e ->
              um_text um = "Transcription failed: " +:+ e)
        /\ (forall e,
              (is_Some (whisper_slot st)
               \/ exists m, whisper_load_model w "small" = Return m) ->
              whisper_transcribe w path = Raise e ->
              um_text um = "Transcription failed: " +:+ e)).
Proof.
  intros Hct Hkind path.
  pose proof (upload_memory_accepted w file title person st ct Hct Hkind) as Hup.
  cbv zeta in Hup. fold path in Hup.
  eexists _, _, _. split; [exact Hup|]. cbn [um_id um_text um_date um_location db uploads].
  split; [|split; [|split]].
  - eexists. split; [apply lookup_insert_eq|]. simpl. auto.
  - apply lookup_insert_eq.
  - intros Himg. rewrite Himg. unfold process_file. cbn [fst snd].
    unfold extract_text_from_image. split; [|split].
    + intros e He. now rewrite He.
    + intros u e Hu He. now rewrite Hu, He.
    + intros e He. unfold extract_exif_data. rewrite He. split; reflexivity.
  - intros Himg. rewrite Himg. unfold process_file, transcribe_audio.
    rewrite saved_file_exists. unfold load_whisper_model.
    split; [|split; [|split]].
    + destruct (whisper_slot st); [|destruct (whisper_load_model w "small")];
        try destruct (whisper_transcribe w path); reflexivity.
    + destruct (whisper_slot st); [|destruct (whisper_load_model w "small")];
        try destruct (whisper_transcribe w path); reflexivity.
    + intros e Hslot He. now rewrite Hslot, He.
    + intros e Hmodel He.
      destruct (whisper_slot st) as [m|] eqn:Hslot.
      * now rewrite He.
      * destruct Hmodel as [[m Hm]|[m Hm]]; [discriminate|]. now rewrite Hm, He.
Qed.

Lemma upload_survives_extraction_failure_witness :
  content_type jpeg_upload = Some "image/jpeg"
  /\ String.prefix "image/" "image/jpeg" || String.prefix "audio/" "image/jpeg" = true
  /\ exists um st' calls,
      upload_memory broken_world jpeg_upload "Test Image Memory" None fresh_app
      = (JSONResponse 200 um, st', calls)
      /\ exists row,
          get_memory_by_id (um_id um) (db st') = Some row
          /\ Memories.title row = VStr "Test Image Memory"
          /\ Memories.text row = VStr (um_text um).
Proof.
  split; [reflexivity|]. split; [reflexivity|].
  destruct (upload_survives_extraction_failure broken_world jpeg_upload
              "Test Image Memory" None fresh_app "image/jpeg" eq_refl eq_refl)
    as (um & st' & calls & Hup & (row & Hrow & Ht & Hx & _) & _).
  exists um, st', calls. split; [exact Hup|]. exists row. auto.
Defined.

(** C3 as stated fails: with Tesseract missing, or with a Whisper model
    that does not load, the upload is answered 200 and the record is
    committed, but its text is the failure message, not the empty string. *)
Lemma failed_extraction_text_is_a_message :
  (exists um st' calls,
     upload_memory broken_world jpeg_upload "Test Image Memory" None fresh_app
     = (JSONResponse 200 um, st', calls)
     /\ um_text um = "OCR not available - Tesseract not installed"
     /\ Memories.text <$> get_memory_by_id (um_id um) (db st')
        = Some (VStr "OCR not available - Tesseract not installed"))
  /\ (exists um st' calls,
        upload_memory broken_world wav_upload "Test Audio Memory" None fresh_app
        = (JSONResponse 200 um, st', calls)
        /\ um_text um = "Transcription failed: no model"
        /\ Memories.text <$> get_memory_by_id (um_id um) (db st')
           = Some (VStr "Transcription failed: no model"))
  /\ "OCR not available - Tesseract not installed" <> ""
  /\ "Transcription failed: no model" <> "".
Proof.
  split; [|split; [|split; discriminate]].
  - eexists _, _, _. split; [vm_compute; reflexivity|]. split; reflexivity.
  - eexists _, _, _. split; [vm_compute; reflexivity|]. split; reflexivity.
Qed.

(** C7. An upload whose title field is empty is answered with the
    validation error of the form binding, and nothing else happens: the
    route function does not run, so the uploads directory and the store
    are the ones before the request and no scoring library is called. *)
Theorem empty_title_is_rejected (w : world) (form : upload_form) (st : app_state) :
  form_title form = Some "" ->
  exists detail,
    (post_api_upload w form st).1.1 = HTTPException 422 detail
    /\ uploads (post_api_upload w form st).1.2 = uploads st
    /\ db (post_api_upload w form st).1.2 = db st
    /\ (post_api_upload w form st).2 = [].
Proof.
  intros Ht. unfold post_api_upload. rewrite Ht. simpl.
  destruct (form_file form); eexists; repeat split.
Qed.

Lemma empty_title_is_rejected_witness :
  form_title empty_title_form = Some ""
  /\ exists detail,
      (post_api_upload working_world empty_title_form fresh_app).1.1
      = HTTPException 422 detail
      /\ uploads (post_api_upload working_world empty_title_form fresh_app).1.2
         = uploads fresh_app
      /\ db (post_api_upload working_world empty_title_form fresh_app).1.2
         = db fresh_app
      /\ (post_api_upload working_world empty_title_form fresh_app).2 = [].
Proof.
  split; [reflexivity|].
  apply (empty_title_is_rejected working_world empty_title_form fresh_app).
  reflexivity.
Defined.

(** The route function itself never looks at the title: handed an empty
    one it would store it. The rejection is the form binding's alone. *)
Lemma route_function_keeps_any_title :
  exists um st' calls,
    upload_memory working_world jpeg_upload "" None fresh_app
    = (JSONResponse 200 um, st', calls)
    /\ um_title um = ""
    /\ Memories.title <$> get_memory_by_id (um_id um) (db st') = Some (VStr "").
Proof.
  eexists _, _, _. split; [vm_compute; reflexivity|]. split; reflexivity.
Qed.

(** ** Sentiment *)

Lemma round2_bounded x : (-1 <= x <= 1)%Q -> (-1 <= round2 x <= 1)%Q.
Proof.
  intros [Hlo Hhi]. unfold round2.
  set (y := (x * 100)%Q). set (n := Qfloor y).
  assert (Hy : (-100 <= y <= 100)%Q) by (unfold y; split; lra).
  assert (Hn1 : (inject_Z n <= y)%Q) by apply Qfloor_le.
  assert (Hlow : -100 <= n).
  { change (-100) with (Qfloor (inject_Z (-100))).
    apply Qfloor_resp_le. exact (proj1 Hy). }
  assert (Hup : n <= 100).
  { rewrite Zle_Qle. change (inject_Z 100) with 100%Q. lra. }
  assert (Hr : forall r, -100 <= r <= 100 -> (-1 <= inject_Z r / 100 <= 1)%Q).
  { intros r [H1 H2]. rewrite Zle_Qle in H1, H2.
    change (inject_Z (-100)) with (-100)%Q in H1.
    change (inject_Z 100) with 100%Q in H2.
    split; [apply Qle_shift_div_l|apply Qle_shift_div_r]; lra. }
  assert (Hstep : (0 < y - inject_Z n)%Q -> n + 1 <= 100).
  { intros Hpos. assert (Hlt : (inject_Z n < 100)%Q) by lra.
    change 100%Q with (inject_Z 100) in Hlt. rewrite <- Zlt_Qlt in Hlt. lia. }
  destruct (Qcompare (y - inject_Z n) (1 # 2)) eqn:Hcmp.
  - apply Qeq_alt in Hcmp. destruct (Z.even n); apply Hr; [lia|].
    split; [lia|]. apply Hstep. lra.
  - apply Hr. lia.
  - apply Qgt_alt in Hcmp. apply Hr. split; [lia|]. apply Hstep. lra.
Qed.

Lemma scorer_value_bounded (o : outcome Q) :
  (forall q, o = Return q -> (-1 <= q <= 1)%Q) ->
  (-1 <= match o with Return q => q | Raise _ => 0 end <= 1)%Q.
Proof.
  intros H. destruct o as [q|e]; [now apply H|]. split; lra.
Qed.

Lemma analyze_sentiment_bounded w text :
  scorers_bounded w -> (-1 <= (analyze_sentiment w text).1 <= 1)%Q.
Proof.
  intros [Htb Hvd]. unfold analyze_sentiment.
  destruct text as [s|]; [|simpl; split; lra].
  destruct (String.eqb s "" || String.eqb (strip s) ""); [simpl; split; lra|].
  destruct (String.eqb (clean_text_for_sentiment w s) ""); [simpl; split; lra|].
  unfold get_textblob_sentiment, get_vader_sentiment. cbn [fst].
  apply round2_bounded.
  pose proof (scorer_value_bounded (textblob_polarity w (clean_text_for_sentiment w s))
                (Htb _)) as H1.
  pose proof (scorer_value_bounded (vader_compound w (clean_text_for_sentiment w s))
                (Hvd _)) as H2.
  split; [apply Qle_shift_div_l|apply Qle_shift_div_r]; lra.
Qed.

Lemma analyze_sentiment_blank w text :
  blank text -> analyze_sentiment w text = (0%Q, []).
Proof.
  destruct text as [s|]; [|reflexivity]. simpl. intros Hs.
  unfold analyze_sentiment. rewrite Hs. now rewrite orb_true_r.
Qed.

(** [str.strip] twice is [str.strip] once. *)
Lemma lstrip_chars_idem l : lstrip_chars (lstrip_chars l) = lstrip_chars l.
Proof.
  induction l as [|c l IH]; simpl; [reflexivity|].
  destruct (isspace c) eqn:Hc; [exact IH|]. simpl. now rewrite Hc.
Qed.

Lemma lstrip_chars_split l :
  exists pre, l = pre ++ lstrip_chars l.
Proof.
  induction l as [|c l [pre IH]]; simpl; [now exists []|].
  destruct (isspace c); [|now exists []].
  exists (c :: pre). simpl. now rewrite <- IH.
Qed.

Lemma lstrip_chars_fixed l :
  match l with [] => True | c :: _ => isspace c = false end ->
  lstrip_chars l = l.
Proof. destruct l as [|c l]; simpl; [reflexivity|]. now intros ->. Qed.

Lemma lstrip_chars_head l :
  match lstrip_chars l with [] => True | c :: _ => isspace c = false end.
Proof.
  induction l as [|c l IH]; simpl; [exact I|].
  destruct (isspace c) eqn:Hc; [exact IH|exact Hc].
Qed.

Lemma strip_idem s : strip (strip s) = strip s.
Proof.
  unfold strip, chars, str. rewrite list_ascii_of_string_of_list_ascii.
  set (L := lstrip_chars (list_ascii_of_string s)).
  destruct (lstrip_chars_split (rev L)) as [pre Hpre].
  set (T := lstrip_chars (rev L)) in *.
  assert (HL : L = rev T ++ rev pre).
  { rewrite <- (rev_involutive L), Hpre. apply rev_app_distr. }
  assert (Hfix : lstrip_chars (rev T) = rev T).
  { apply lstrip_chars_fixed. pose proof (lstrip_chars_head (list_ascii_of_string s)) as Hh.
    fold L in Hh. rewrite HL in Hh. destruct (rev T); [exact I|exact Hh]. }
  rewrite Hfix, rev_involutive. unfold T. now rewrite lstrip_chars_idem.
Qed.

Lemma lstrip_chars_keeps_last l c :
  isspace c = false -> lstrip_chars (l ++ [c]) <> [].
Proof.
  intros Hc. induction l as [|x l IH]; simpl.
  - now rewrite Hc.
  - destruct (isspace x); [exact IH|discriminate].
Qed.

Lemma strip_nonblank c s : isspace c = false -> strip (String c s) <> "".
Proof.
  intros Hc. unfold strip, chars, str. simpl. rewrite Hc. simpl.
  intros H.
  assert (Hnil : rev (lstrip_chars (rev (list_ascii_of_string s) ++ [c])) = []).
  { destruct (rev (lstrip_chars (rev (list_ascii_of_string s) ++ [c])));
      [reflexivity|discriminate]. }
  apply (f_equal (@rev ascii)) in Hnil. rewrite rev_involutive in Hnil.
  exact (lstrip_chars_keeps_last _ c Hc Hnil).
Qed.

(** The loop of clean_extracted_text has fuel enough: it stops only when no
    two spaces are adjacent. *)
Lemma replace_double_space_length n l :
  (length l <= n)%nat ->
  (length (replace_double_space l) <= length l)%nat
  /\ (has_double_space l = true ->
      (length (replace_double_space l) < length l)%nat).
Proof.
  revert l. induction n as [|n IH]; intros l Hn.
  - destruct l; [simpl; split; [lia|discriminate]|simpl in Hn; lia].
  - destruct l as [|c1 [|c2 l2]]; simpl; try (split; [lia|discriminate]).
    destruct (Ascii.eqb c1 " " && Ascii.eqb c2 " ") eqn:Hsp.
    + destruct (IH l2) as [H1 _]; [simpl in *; lia|].
      simpl. split; intros; lia.
    + destruct (IH (c2 :: l2)) as [H1 H2]; [simpl in *; lia|].
      simpl in *. split; [lia|]. intros H. specialize (H2 H). lia.
Qed.

Lemma squeeze_spaces_done n l :
  (length l <= n)%nat -> has_double_space (squeeze_spaces n l) = false.
Proof.
  revert l. induction n as [|n IH]; intros l Hn.
  - destruct l; [reflexivity|simpl in Hn; lia].
  - simpl. destruct (has_double_space l) eqn:Hd; [|exact Hd].
    apply IH. destruct (replace_double_space_length (S n) l Hn) as [_ H].
    specialize (H Hd). lia.
Qed.

(** The text an upload extracts is empty or has a character that is not
    whitespace. *)
Lemma process_file_text_not_blank w is_image path fs slot :
  blank (Some (process_file w is_image path fs slot).1.1.1) ->
  (process_file w is_image path fs slot).1.1.1 = "".
Proof.
  unfold blank, process_file. destruct is_image; cbn [fst].
  - unfold extract_text_from_image.
    destruct (get_tesseract_version w); [|intros H; vm_compute in H; discriminate].
    destruct (image_to_string w _) as [t|e].
    + unfold clean_extracted_text. destruct (String.eqb t ""); [reflexivity|].
      now rewrite strip_idem.
    + intros H. exfalso. revert H. now apply strip_nonblank.
  - unfold transcribe_audio.
    destruct (bool_decide _);
      [destruct (load_whisper_model w "small" slot) as [[m|e] slot'];
       [destruct (whisper_transcribe w path) as [t|e]|]|]; cbn [fst].
    + now rewrite strip_idem.
    + intros H. exfalso. revert H. now apply strip_nonblank.
    + intros H. exfalso. revert H. now apply strip_nonblank.
    + intros H. exfalso. revert H. now apply strip_nonblank.
Qed.

(** C8. With scoring libraries that keep to their range [-1, 1], the score
    of analyze_sentiment lies in [-1, 1] for every text, and so does the
    score the upload computes from the extracted text. For absent, empty or
    whitespace-only text analyze_sentiment returns exactly 0 without calling
    a scoring library; for empty extracted text the upload takes 0 without
    calling analyze_sentiment at all, and the text an upload extracts is
    never whitespace-only unless it is empty. *)
Theorem sentiment_score_in_range (w : world) (text : option string) (s : string) :
  scorers_bounded w ->
  (-1 <= (analyze_sentiment w text).1 <= 1)%Q
  /\ (blank text -> analyze_sentiment w text = (0%Q, []))
  /\ (-1 <= (score_text w s).1 <= 1)%Q
  /\ (s = "" -> score_text w s = (0%Q, []))
  /\ (blank (Some s) ->
      (score_text w s).1 = 0%Q
      /\ forall c, c ∈ (score_text w s).2 -> c = AnalyzeSentimentCall s)
  /\ (forall is_image path fs slot,
      blank (Some (process_file w is_image path fs slot).1.1.1) ->
      score_text w (process_file w is_image path fs slot).1.1.1 = (0%Q, [])).
Proof.
  intros Hw. split; [now apply analyze_sentiment_bounded|].
  split; [apply analyze_sentiment_blank|].
  assert (Hempty : forall t, t = "" -> score_text w t = (0%Q, [])).
  { intros t ->. reflexivity. }
  split; [|split; [apply Hempty|split]].
  - unfold score_text. destruct (String.eqb s ""); cbn [negb].
    + cbn [fst]. split; lra.
    + pose proof (analyze_sentiment_bounded w (Some s) Hw) as Hb.
      destruct (analyze_sentiment w (Some s)) as [sc calls]. exact Hb.
  - intros Hs. unfold score_text. destruct (String.eqb s ""); cbn [negb].
    + split; [reflexivity|]. intros c Hc. now apply elem_of_nil in Hc.
    + rewrite (analyze_sentiment_blank w (Some s) Hs). cbn [fst snd].
      split; [reflexivity|]. intros c Hc.
      apply elem_of_cons in Hc as [Hc|Hc]; [exact Hc|now apply elem_of_nil in Hc].
  - intros is_image path fs slot Hb. apply Hempty.
    now apply process_file_text_not_blank.
Qed.

Lemma working_world_bounded : scorers_bounded working_world.
Proof.
  split; intros t q H; inversion H; subst; split; unfold Qle; simpl; lia.
Qed.

Lemma sentiment_score_in_range_witness :
  scorers_bounded working_world
  /\ (-1 <= (analyze_sentiment working_world (Some "   ")).1 <= 1)%Q
  /\ (blank (Some "   ") -> analyze_sentiment working_world (Some "   ") = (0%Q, []))
  /\ (-1 <= (score_text working_world "A lovely day").1 <= 1)%Q.
Proof.
  split; [exact working_world_bounded|].
  destruct (sentiment_score_in_range working_world (Some "   ") "A lovely day"
              working_world_bounded) as (H1 & H2 & H3 & _).
  auto.
Defined.

(** ** Snippets *)

(** Whatever the engine, the snippet the SELECT calls [title_snippet] is
    the engine's snippet of column 1, the text column, and the one it calls
    [text_snippet] is the snippet of column 2, the person column: column 0,
    the title, is never asked for. *)
Lemma search_select_snippet_columns eng query limit d rows :
  search_select eng query limit d = Return rows ->
  Forall (fun row =>
            exists e,
              memories_fts d !! Memories.id (sr_m row) = Some e
              /\ sr_title_snippet row = fts_snippet eng e 1 query 32
              /\ sr_text_snippet row = fts_snippet eng e 2 query 64)
         rows.
Proof.
  unfold search_select. destruct (fts_match eng query) as [matches|e]; [|discriminate].
  intros H. inversion H; subst. clear H.
  apply List.Forall_forall. intros row Hrow.
  apply in_map_iff in Hrow as [[m e] [<- Hin]]. simpl.
  apply list_elem_of_In, sql_limit_subseteq in Hin.
  rewrite merge_sort_Permutation in Hin.
  apply elem_of_search_candidates in Hin as (_ & He & _).
  exists e. auto.
Qed.

(** C9 on the record "Summer Trip" / "We visited the lake and it was
    wonderful" and the query "lake". Title and text both have a snippet, so
    the snippet should read "Title: <title snippet> | Text: <text snippet>";
    the code gives the text snippet under the label "Title:" and nothing
    else, the person being NULL. *)
Theorem title_label_carries_text_snippet :
  memories_fts one_memory !! 1
    = Some (Fts.mk (VStr "Summer Trip")
              (VStr "We visited the lake and it was wonderful") VNone)
  /\ fts_snippet token_engine (fts_values (new_row 100 1 summer_trip)) 0 "lake" 32
     = Some "Summer Trip"
  /\ fts_snippet token_engine (fts_values (new_row 100 1 summer_trip)) 1 "lake" 64
     = Some "We visited the <mark>lake</mark> and it was wonderful"
  /\ (match search_memories token_engine "lake" 20 one_memory with
      | Return results => map res_snippet results
      | Raise _ => []
      end) = [VStr "Title: We visited the <mark>lake</mark> and it was wonderful"]
  /\ VStr "Title: We visited the <mark>lake</mark> and it was wonderful"
     <> VStr "Title: Summer Trip | Text: We visited the <mark>lake</mark> and it was wonderful".
Proof.
  repeat split; try (vm_compute; reflexivity). discriminate.
Qed.

(** When neither snippet column is usable the result falls back to the
    title of the row, and when both are it joins the two labelled parts. *)
Lemma combine_snippets_cases m t x :
  combine_snippets (mk_search_row m None None) = Memories.title m
  /\ combine_snippets (mk_search_row m (Some "") (Some "")) = Memories.title m
  /\ (t <> "" -> x <> "" ->
      combine_snippets (mk_search_row m (Some t) (Some x))
      = VStr (("Title: " +:+ t) +:+ " | " +:+ ("Text: " +:+ x))).
Proof.
  split; [reflexivity|]. split; [reflexivity|].
  intros Ht Hx. unfold combine_snippets. simpl.
  destruct (String.eqb_spec t ""); [contradiction|].
  destruct (String.eqb_spec x ""); [contradiction|]. reflexivity.
Qed.

(** ** EXIF *)

Lemma dom_empty_exif :
  dom empty_exif
  = ({[ "date"; "location"; "camera_make"; "camera_model" ]} : gset string).
Proof. unfold empty_exif. rewrite !dom_insert_L, dom_singleton_L. set_solver. Qed.

Lemma dom_insert_present (m : gmap string (option string)) key v :
  key ∈ dom m -> dom (<[key := v]> m) = dom m.
Proof.
  intros H. rewrite dom_insert_L.
  apply subseteq_union_1_L, singleton_subseteq_l, H.
Qed.

(** C10. For every image path and every behaviour of the EXIF reader,
    extract_exif_data returns a dictionary whose keys are exactly date,
    location, camera_make and camera_model, each holding a string or None;
    when opening or reading the file fails, all four hold None. *)
Theorem extract_exif_data_keys (w : world) (image_path : string) :
  dom (extract_exif_data w image_path)
    = ({[ "date"; "location"; "camera_make"; "camera_model" ]} : gset string)
  /\ (forall e, exifread_process_file w image_path = Raise e ->
        forall key, key ∈ dom (extract_exif_data w image_path) ->
          extract_exif_data w image_path !! key = Some None).
Proof.
  split.
  - unfold extract_exif_data.
    destruct (exifread_process_file w image_path) as [tags|e]; [|apply dom_empty_exif].
    repeat match goal with
           | |- context [match ?o with Some _ => _ | None => _ end] => destruct o
           end;
      repeat (rewrite dom_insert_present;
              [|repeat (rewrite dom_insert_present; [|rewrite ?dom_empty_exif; set_solver]);
                rewrite ?dom_empty_exif; set_solver]);
      apply dom_empty_exif.
  - intros e He key. unfold extract_exif_data. rewrite He, dom_empty_exif.
    intros Hk. unfold empty_exif.
    repeat (apply elem_of_union in Hk as [Hk|Hk]);
      apply elem_of_singleton in Hk; subst; reflexivity.
Qed.

(** * Further properties of the store *)

(** ** Ids *)

Lemma max_rowid_spec (m : gmap Z Memories.row) :
  0 <= max_rowid m
  /\ (forall k, is_Some (m !! k) -> k <= max_rowid m)
  /\ (forall b, 0 <= b -> (forall k, is_Some (m !! k) -> k <= b) -> max_rowid m <= b).
Proof.
  unfold max_rowid.
  apply (map_fold_weak_ind
           (fun r (m : gmap Z Memories.row) =>
              0 <= r
              /\ (forall k, is_Some (m !! k) -> k <= r)
              /\ (forall b, 0 <= b -> (forall k, is_Some (m !! k) -> k <= b) -> r <= b))).
  - split; [lia|]. split.
    + intros k [x Hx]. now rewrite lookup_empty in Hx.
    + intros b Hb _. exact Hb.
  - intros i x m' r Hi (H0 & Hub & Hlub). split; [lia|]. split.
    + intros k Hk. destruct (decide (i = k)) as [->|Hne]; [lia|].
      rewrite lookup_insert_ne in Hk by assumption. specialize (Hub k Hk). lia.
    + intros b Hb Hall.
      assert (i <= b) by (apply Hall; rewrite lookup_insert_eq; eauto).
      assert (r <= b).
      { apply Hlub; [exact Hb|]. intros k Hk. apply Hall.
        destruct (decide (i = k)) as [->|Hne].
        - rewrite lookup_insert_eq. eauto.
        - now rewrite lookup_insert_ne. }
      lia.
Qed.

Lemma next_rowid_fresh d :
  sqlite_sequence d < next_rowid d
  /\ 0 < next_rowid d
  /\ (forall k, is_Some (memories d !! k) -> k < next_rowid d)
  /\ memories d !! next_rowid d = None.
Proof.
  destruct (max_rowid_spec (memories d)) as (H0 & Hub & _).
  unfold next_rowid.
  assert (Hlt : forall k, is_Some (memories d !! k) ->
                  k < Z.max (sqlite_sequence d) (max_rowid (memories d)) + 1).
  { intros k Hk. specialize (Hub k Hk). lia. }
  split; [lia|]. split; [lia|]. split; [exact Hlt|].
  apply eq_None_not_Some. intros Hk. specialize (Hlt _ Hk). lia.
Qed.

(** X1. The id create_memory returns is positive, larger than the
    AUTOINCREMENT counter and than every id in the store; the insert leaves
    every other record and index row as it was and makes the store one
    record larger. *)
Theorem create_memory_fresh_id (now : Z) (a : create_args) (d : database)
    (memory_id : Z) :
  result (create_memory now a d) = Return memory_id ->
  0 < memory_id
  /\ sqlite_sequence d < memory_id
  /\ get_memory_by_id memory_id d = None
  /\ (forall k, is_Some (memories d !! k) -> k < memory_id)
  /\ (forall k, k <> memory_id ->
        memories (final (create_memory now a d)) !! k = memories d !! k
        /\ memories_fts (final (create_memory now a d)) !! k = memories_fts d !! k)
  /\ size (memories (final (create_memory now a d))) = S (size (memories d)).
Proof.
  intros Hres. destruct (create_memory_returns _ _ _ _ Hres) as (-> & _ & ->).
  destruct (next_rowid_fresh d) as (Hseq & Hpos & Hlt & Hnone).
  split; [exact Hpos|]. split; [exact Hseq|]. split; [exact Hnone|].
  split; [exact Hlt|]. split.
  - intros k Hne. simpl. now rewrite !lookup_insert_ne by congruence.
  - simpl. now apply map_size_insert_None.
Qed.

Lemma create_memory_fresh_id_witness :
  0 < 2
  /\ sqlite_sequence one_memory < 2
  /\ get_memory_by_id 2 one_memory = None
  /\ (forall k, is_Some (memories one_memory !! k) -> k < 2)
  /\ (forall k, k <> 2 ->
        memories (final (create_memory 100 winter_walk one_memory)) !! k
        = memories one_memory !! k
        /\ memories_fts (final (create_memory 100 winter_walk one_memory)) !! k
           = memories_fts one_memory !! k)
  /\ size (memories (final (create_memory 100 winter_walk one_memory)))
     = S (size (memories one_memory)).
Proof.
  apply (create_memory_fresh_id 100 winter_walk one_memory 2). reflexivity.
Defined.

Lemma create_memory_sequence now a d :
  sqlite_sequence d <= sqlite_sequence (final (create_memory now a d))
  /\ forall memory_id,
      result (create_memory now a d) = Return memory_id ->
      sqlite_sequence (final (create_memory now a d)) = memory_id.
Proof.
  unfold create_memory. simpl.
  destruct (constraints_ok _); simpl.
  - destruct (next_rowid_fresh d) as (Hseq & _). split; [lia|].
    intros k Hk. inversion Hk; subst. lia.
  - split; [lia|]. discriminate.
Qed.

Lemma update_memory_sequence now k kwargs d :
  sqlite_sequence (final (update_memory now k kwargs d)) = sqlite_sequence d.
Proof.
  rewrite update_memory_unfold.
  destruct (set_clauses kwargs); [reflexivity|].
  destruct (memories d !! k); [|reflexivity].
  cbv zeta. destruct (constraints_ok _); reflexivity.
Qed.

Lemma delete_memory_sequence rf k d fs :
  sqlite_sequence (final (delete_memory rf k d fs).1) = sqlite_sequence d.
Proof.
  unfold delete_memory. simpl. destruct (memories d !! k); reflexivity.
Qed.

Lemma apply_ops_sequence ops s :
  sqlite_sequence s.1 <= sqlite_sequence (apply_ops ops s).1.
Proof.
  revert s. induction ops as [|op ops IH]; intros s; simpl; [lia|].
  etransitivity; [|apply IH].
  destruct op as [now a|now k kwargs|rf k]; simpl.
  - apply create_memory_sequence.
  - rewrite update_memory_sequence. lia.
  - rewrite delete_memory_sequence. lia.
Qed.

Lemma create_memory_above now a d memory_id :
  result (create_memory now a d) = Return memory_id ->
  0 < memory_id
  /\ sqlite_sequence d < memory_id
  /\ (forall k, is_Some (memories d !! k) -> k < memory_id).
Proof.
  intros H. destruct (create_memory_returns _ _ _ _ H) as (-> & _ & _).
  destruct (next_rowid_fresh d) as (Hseq & Hpos & Hlt & _). auto.
Qed.

(** X2. An id is never given twice: after a create returned [memory_id],
    whatever creates, updates and deletes follow (deleting that very record
    included), a later create returns a larger id. *)
Theorem deleted_id_is_not_reused (now : Z) (a : create_args) (d : database)
    (memory_id : Z) (ops : list store_op) (fs : files)
    (now' : Z) (a' : create_args) (memory_id' : Z) :
  result (create_memory now a d) = Return memory_id ->
  result (create_memory now' a'
            (apply_ops ops (final (create_memory now a d), fs)).1)
    = Return memory_id' ->
  memory_id < memory_id'.
Proof.
  intros H1 H2.
  destruct (create_memory_sequence now a d) as [_ Hseq]. specialize (Hseq _ H1).
  pose proof (apply_ops_sequence ops (final (create_memory now a d), fs)) as Hmono.
  simpl in Hmono.
  destruct (create_memory_above _ _ _ _ H2) as (_ & Hlt & _). lia.
Qed.

Lemma deleted_id_is_not_reused_witness :
  result (create_memory 100 summer_trip init_database) = Return 1
  /\ result (create_memory 300 winter_walk
               (apply_ops [OpDelete (fun _ => false) 1]
                  (final (create_memory 100 summer_trip init_database), ∅)).1)
     = Return 2
  /\ 1 < 2.
Proof.
  split; [reflexivity|]. split; [vm_compute; reflexivity|].
  apply (deleted_id_is_not_reused 100 summer_trip init_database 1
           [OpDelete (fun _ => false) 1] ∅ 300 winter_walk 2).
  - reflexivity.
  - vm_compute. reflexivity.
Defined.

(** X3. Two creates in a row return consecutive ids. *)
Theorem consecutive_creates_consecutive_ids (now now' : Z) (a a' : create_args)
    (d : database) (id1 id2 : Z) :
  result (create_memory now a d) = Return id1 ->
  result (create_memory now' a' (final (create_memory now a d))) = Return id2 ->
  id2 = id1 + 1.
Proof.
  intros H1 H2.
  destruct (create_memory_above _ _ _ _ H1) as (Hpos & _ & Hlt).
  destruct (create_memory_sequence now a d) as [_ Hseq]. specialize (Hseq _ H1).
  destruct (create_memory_returns _ _ _ _ H1) as (_ & _ & Hfin).
  destruct (create_memory_returns _ _ _ _ H2) as (-> & _ & _).
  unfold next_rowid. rewrite Hseq.
  destruct (max_rowid_spec (memories (final (create_memory now a d))))
    as (H0 & _ & Hlub).
  assert (Hle : max_rowid (memories (final (create_memory now a d))) <= id1).
  { apply Hlub; [lia|]. intros k Hk. rewrite Hfin in Hk. simpl in Hk.
    destruct (decide (id1 = k)) as [->|Hne]; [lia|].
    rewrite lookup_insert_ne in Hk by assumption. specialize (Hlt k Hk). lia. }
  lia.
Qed.

Lemma consecutive_creates_consecutive_ids_witness :
  result (create_memory 100 summer_trip init_database) = Return 1
  /\ result (create_memory 100 winter_walk
               (final (create_memory 100 summer_trip init_database))) = Return 2
  /\ 2 = 1 + 1.
Proof.
  split; [reflexivity|]. split; [vm_compute; reflexivity|].
  apply (consecutive_creates_consecutive_ids 100 100 summer_trip winter_walk
           init_database 1 2).
  - reflexivity.
  - vm_compute. reflexivity.
Defined.

(** ** Listing and paging *)

Lemma sql_limit_sublist {A} limit offset (l : list A) :
  sql_limit limit offset l `sublist_of` l.
Proof.
  unfold sql_limit. destruct (limit <? 0).
  - apply sublist_drop.
  - etransitivity; [apply sublist_take|apply sublist_drop].
Qed.

Lemma sql_limit_length {A} limit offset (l : list A) :
  0 <= limit -> Z.of_nat (length (sql_limit limit offset l)) <= limit.
Proof.
  intros H. unfold sql_limit.
  destruct (limit <? 0) eqn:Hl; [apply Z.ltb_lt in Hl; lia|].
  rewrite length_take. lia.
Qed.

Lemma sql_limit_pages {A} (n m o : Z) (l : list A) :
  0 <= n -> 0 <= m -> 0 <= o ->
  sql_limit n o l ++ sql_limit m (o + n) l = sql_limit (n + m) o l.
Proof.
  intros Hn Hm Ho. unfold sql_limit.
  destruct (n <? 0) eqn:H1; [apply Z.ltb_lt in H1; lia|].
  destruct (m <? 0) eqn:H2; [apply Z.ltb_lt in H2; lia|].
  destruct (n + m <? 0) eqn:H3; [apply Z.ltb_lt in H3; lia|].
  rewrite !Z2Nat.inj_add by lia. rewrite <- drop_drop. apply take_take_drop.
Qed.

(** X4. Paging the listing: a page of get_all_memories has at most [limit]
    rows when the limit is not negative, and the page of [n] rows at offset
    [o] followed by the page of [m] rows at offset [o + n] is the page of
    [n + m] rows at offset [o]: consecutive pages neither overlap nor skip
    a record. *)
Theorem listing_pages_join (plan : list Memories.row -> list Memories.row)
    (n m o : Z) (d : database) :
  0 <= n -> 0 <= m -> 0 <= o ->
  Z.of_nat (length (get_all_memories plan n o d)) <= n
  /\ get_all_memories plan n o d ++ get_all_memories plan m (o + n) d
     = get_all_memories plan (n + m) o d.
Proof.
  intros Hn Hm Ho. unfold get_all_memories. split.
  - now apply sql_limit_length.
  - now apply sql_limit_pages.
Qed.

Lemma listing_pages_join_witness :
  Z.of_nat (length (get_all_memories rowid_scan 1 0 same_second)) <= 1
  /\ get_all_memories rowid_scan 1 0 same_second
     ++ get_all_memories rowid_scan 1 (0 + 1) same_second
     = get_all_memories rowid_scan (1 + 1) 0 same_second.
Proof.
  apply (listing_pages_join rowid_scan 1 1 0 same_second); lia.
Defined.

Lemma NoDup_map_sublist {A B} (f : A -> B) (l1 l2 : list A) :
  l1 `sublist_of` l2 -> NoDup (map f l2) -> NoDup (map f l1).
Proof.
  intros Hsub Hnd. eapply sublist_NoDup; [exact Hnd|]. clear Hnd.
  induction Hsub as [|x l1 l2 Hsub IH|x l1 l2 Hsub IH]; simpl.
  - apply sublist_nil.
  - now apply sublist_skip.
  - now apply sublist_cons.
Qed.

Lemma table_rows_ids_NoDup d :
  well_formed d -> NoDup (map Memories.id (table_rows d)).
Proof.
  intros Hwf. unfold table_rows.
  assert (Hp : map Memories.id
                 (merge_sort rowid_le (map snd (map_to_list (memories d))))
               ≡ₚ map Memories.id (map snd (map_to_list (memories d))))
    by apply Permutation_map, merge_sort_Permutation.
  rewrite Hp, map_map.
  assert (Heq : map (fun x => Memories.id x.2) (map_to_list (memories d))
                = map fst (map_to_list (memories d))).
  { apply map_ext_in. intros [k r] Hin. simpl.
    apply list_elem_of_In, elem_of_map_to_list in Hin. now apply Hwf. }
  rewrite Heq. exact (NoDup_fst_map_to_list (memories d)).
Qed.

Lemma table_rows_length d : length (table_rows d) = size (memories d).
Proof.
  unfold table_rows.
  rewrite (Permutation_length (merge_sort_Permutation _ _)), length_map.
  apply length_map_to_list.
Qed.

(** X5. The listing shows records of the store, none of them twice; with
    no limit (a negative one) and no offset it shows every record of the
    store exactly once. *)
Theorem listing_shows_each_record_once
    (plan : list Memories.row -> list Memories.row) (limit offset : Z)
    (d : database) :
  well_formed d ->
  (forall l, plan l ≡ₚ l) ->
  NoDup (map Memories.id (get_all_memories plan limit offset d))
  /\ (limit < 0 -> offset <= 0 ->
      get_all_memories plan limit offset d ≡ₚ table_rows d
      /\ length (get_all_memories plan limit offset d) = size (memories d)
      /\ forall k r, memories d !! k = Some r ->
           r ∈ get_all_memories plan limit offset d).
Proof.
  intros Hwf Hplan.
  assert (Hperm : order_by_created_at_desc plan (table_rows d) ≡ₚ table_rows d).
  { unfold order_by_created_at_desc. now rewrite merge_sort_Permutation, Hplan. }
  split.
  - unfold get_all_memories.
    apply (NoDup_map_sublist _ _ _ (sql_limit_sublist limit offset _)).
    assert (Hp : map Memories.id (order_by_created_at_desc plan (table_rows d))
                 ≡ₚ map Memories.id (table_rows d))
      by apply Permutation_map, Hperm.
    rewrite Hp. now apply table_rows_ids_NoDup.
  - intros Hl Ho.
    assert (Hall : get_all_memories plan limit offset d
                   = order_by_created_at_desc plan (table_rows d)).
    { unfold get_all_memories, sql_limit.
      apply Z.ltb_lt in Hl. rewrite Hl.
      replace (Z.to_nat offset) with 0%nat by lia. apply drop_0. }
    rewrite Hall. split; [exact Hperm|]. split.
    + rewrite (Permutation_length Hperm). apply table_rows_length.
    + intros k r Hr. rewrite Hperm. apply elem_of_table_rows. eauto.
Qed.

Lemma one_memory_well_formed : well_formed one_memory.
Proof. exact (proj1 one_memory_consistent). Qed.

Lemma listing_shows_each_record_once_witness :
  well_formed one_memory
  /\ NoDup (map Memories.id (get_all_memories rowid_scan 20 0 one_memory)).
Proof.
  split; [exact one_memory_well_formed|].
  apply (listing_shows_each_record_once rowid_scan 20 0 one_memory
           one_memory_well_formed).
  intros l. reflexivity.
Defined.

(** ** Search *)


Lemma search_memories_unfold eng query limit d results :
  search_memories eng query limit d = Return results ->
  exists matches,
    fts_match eng query = Return matches
    /\ results
       = map (fun me => to_result
                          (mk_search_row me.1 (fts_snippet eng me.2 1 query 32)
                             (fts_snippet eng me.2 2 query 64)))
             (sql_limit limit 0
                (merge_sort (rank_le eng d query) (search_candidates matches d))).
Proof.
  unfold search_memories, search_select.
  destruct (fts_match eng query) as [matches|e]; [|discriminate].
  intros H. inversion H. exists matches. split; [reflexivity|]. now rewrite map_map.
Qed.



Lemma search_result_ids_in_store eng query limit d results k :
  well_formed d ->
  search_memories eng query limit d = Return results ->
  k ∈ map res_id results -> is_Some (memories d !! k).
Proof.
  intros Hwf Hres Hk.
  destruct (search_memories_unfold _ _ _ _ _ Hres) as (matches & _ & ->).
  rewrite map_map in Hk. apply list_elem_of_In, in_map_iff in Hk as [[m e] [<- Hin]].
  apply list_elem_of_In, sql_limit_subseteq in Hin.
  rewrite merge_sort_Permutation in Hin.
  apply elem_of_search_candidates in Hin as (Hrow & _).
  apply elem_of_table_rows in Hrow as [k' Hk'].
  destruct (Hwf _ _ Hk') as [Hid _]. simpl. rewrite Hid. eauto.
Qed.

Lemma listing_ids_in_store plan limit offset d k :
  well_formed d -> (forall l, plan l ≡ₚ l) ->
  k ∈ map Memories.id (get_all_memories plan limit offset d) ->
  is_Some (memories d !! k).
Proof.
  intros Hwf Hplan Hk.
  apply list_elem_of_In, in_map_iff in Hk as [m [<- Hin]].
  apply list_elem_of_In, sql_limit_subseteq in Hin.
  unfold order_by_created_at_desc in Hin.
  rewrite merge_sort_Permutation, Hplan in Hin.
  apply elem_of_table_rows in Hin as [k' Hk'].
  destruct (Hwf _ _ Hk') as [Hid _]. rewrite Hid. eauto.
Qed.

(** X7. After delete_memory returned True for an id, get_memory_by_id
    gives None for it, GET /api/memory/{id} answers 404, no search, whatever
    the query, the limit and the engine, returns it, and no page of the
    listing shows it. *)
Theorem deleted_memory_is_gone (rf : string -> bool) (k : Z) (d : database)
    (fs : files) :
  consistent d ->
  result (delete_memory rf k d fs).1 = Return true ->
  get_memory_by_id k (final (delete_memory rf k d fs).1) = None
  /\ (forall up slot,
        get_memory k {| db := final (delete_memory rf k d fs).1;
                        uploads := up; whisper_slot := slot |}
        = HTTPException 404 "Memory not found")
  /\ (forall (eng : fts5_engine) query limit results,
        search_memories eng query limit (final (delete_memory rf k d fs).1)
          = Return results ->
        k ∉ map res_id results)
  /\ (forall plan limit offset, (forall l, plan l ≡ₚ l) ->
        k ∉ map Memories.id
              (get_all_memories plan limit offset (final (delete_memory rf k d fs).1))).
Proof.
  intros Hd Hres.
  destruct (delete_memory_consistent rf k d fs Hd) as [[Hwf' _] _].
  assert (Hgone : memories (final (delete_memory rf k d fs).1) !! k = None).
  { revert Hres. unfold delete_memory. simpl.
    destruct (memories d !! k) as [row|] eqn:Hrow; simpl; [|discriminate].
    intros _. destruct Hd as [Hwf _]. destruct (Hwf _ _ Hrow) as [-> _].
    apply lookup_delete_eq. }
  split; [exact Hgone|]. split; [|split].
  - intros up slot. unfold get_memory, get_memory_by_id. simpl. now rewrite Hgone.
  - intros eng query limit results Hs Hk.
    apply (search_result_ids_in_store _ _ _ _ _ _ Hwf' Hs) in Hk as [x Hx]. congruence.
  - intros plan limit offset Hplan Hk.
    apply (listing_ids_in_store _ _ _ _ _ Hwf' Hplan) in Hk as [x Hx]. congruence.
Qed.

Lemma deleted_memory_is_gone_witness :
  consistent one_memory
  /\ result (delete_memory (fun _ => false) 1 one_memory ∅).1 = Return true
  /\ get_memory_by_id 1 (final (delete_memory (fun _ => false) 1 one_memory ∅).1) = None
  /\ (forall (eng : fts5_engine) query limit results,
        search_memories eng query limit
          (final (delete_memory (fun _ => false) 1 one_memory ∅).1) = Return results ->
        1 ∉ map res_id results).
Proof.
  split; [exact one_memory_consistent|]. split; [reflexivity|].
  destruct (deleted_memory_is_gone (fun _ => false) 1 one_memory ∅
              one_memory_consistent eq_refl) as (H1 & _ & H3 & _).
  split; [exact H1|exact H3].
Defined.

(** ** Update and the index *)




(** ** Statistics *)

Lemma count_by_type_lookup rows s :
  count_by_type rows !! s
  = match count_of_type s rows with O => None | S n => Some (S n) end.
Proof.
  induction rows as [|r rows IH]; [reflexivity|].
  unfold count_of_type in *. simpl.
  destruct (Memories.media_type r) as [|t| |]; try exact IH.
  destruct (String.eqb_spec t s) as [->|Hne]; simpl.
  - rewrite lookup_insert_eq, IH.
    now destruct (length (List.filter _ rows)).
  - rewrite lookup_insert_ne by assumption. exact IH.
Qed.

Lemma count_image_audio rows :
  Forall (fun r => constraints_ok r = true) rows ->
  length rows = (count_of_type "image" rows + count_of_type "audio" rows)%nat.
Proof.
  induction 1 as [|r rows Hr _ IH]; [reflexivity|].
  unfold count_of_type in *. simpl.
  unfold constraints_ok in Hr. apply andb_prop in Hr as [_ Hr].
  destruct (Memories.media_type r) as [|t| |]; simpl in Hr; try discriminate.
  destruct (String.eqb t "image") eqn:Hi; simpl.
  - apply String.eqb_eq in Hi. subst t. simpl. lia.
  - destruct (String.eqb t "audio") eqn:Ha; simpl; [lia|discriminate].
Qed.

Lemma count_of_type_other rows s :
  Forall (fun r => constraints_ok r = true) rows ->
  s <> "image" -> s <> "audio" -> count_of_type s rows = O.
Proof.
  intros Hall Hi Ha. unfold count_of_type.
  induction Hall as [|r rows Hr _ IH]; [reflexivity|]. simpl.
  unfold constraints_ok in Hr. apply andb_prop in Hr as [_ Hr].
  destruct (Memories.media_type r) as [|t| |]; simpl in Hr; try discriminate.
  destruct (String.eqb t s) eqn:Hts; [|exact IH].
  apply String.eqb_eq in Hts. subst t.
  apply orb_prop in Hr as [Hr|Hr]; apply String.eqb_eq in Hr; congruence.
Qed.

Lemma table_rows_constraints d :
  well_formed d -> Forall (fun r => constraints_ok r = true) (table_rows d).
Proof.
  intros Hwf. apply List.Forall_forall. intros r Hr.
  apply list_elem_of_In, elem_of_table_rows in Hr as [k Hk]. now apply (Hwf k).
Qed.

(** X9. The counts of get_database_stats. On a well-formed store
    total_memories is the number of records; by_type has a key only for a
    media type that some record has, never with count 0, and the key can
    only be 'image' or 'audio'; each count is the number of records of that
    type, and the counts add up to total_memories. *)
Theorem stats_counts_add_up (db_file_size : option Z) (d : database) :
  well_formed d ->
  total_memories (get_database_stats db_file_size d) = length (table_rows d)
  /\ (forall s n, by_type (get_database_stats db_file_size d) !! s = Some n ->
        (s = "image" \/ s = "audio")
        /\ (0 < n)%nat
        /\ n = count_of_type s (table_rows d))
  /\ (forall s, count_of_type s (table_rows d) = O ->
        by_type (get_database_stats db_file_size d) !! s = None)
  /\ total_memories (get_database_stats db_file_size d)
     = (default O (by_type (get_database_stats db_file_size d) !! "image")
        + default O (by_type (get_database_stats db_file_size d) !! "audio"))%nat.
Proof.
  intros Hwf. simpl.
  pose proof (count_image_audio _ (table_rows_constraints d Hwf)) as Hsum.
  split; [symmetry; apply table_rows_length|]. split; [|split].
  - intros s n Hn. rewrite count_by_type_lookup in Hn.
    destruct (count_of_type s (table_rows d)) as [|c] eqn:Hc; [discriminate|].
    inversion Hn; subst n. split; [|split; [lia|reflexivity]].
    destruct (String.eqb_spec s "image") as [->|Hi]; [now left|].
    destruct (String.eqb_spec s "audio") as [->|Ha]; [now right|].
    rewrite (count_of_type_other _ s (table_rows_constraints d Hwf) Hi Ha) in Hc.
    discriminate.
  - intros s Hc. now rewrite count_by_type_lookup, Hc.
  - rewrite !count_by_type_lookup, <- table_rows_length, Hsum.
    destruct (count_of_type "image" (table_rows d));
      destruct (count_of_type "audio" (table_rows d)); reflexivity.
Qed.

Lemma same_second_well_formed : well_formed same_second.
Proof.
  apply (create_memory_consistent 100 winter_walk one_memory).
  exact one_memory_consistent.
Qed.

Lemma stats_counts_add_up_witness :
  well_formed same_second
  /\ total_memories (get_database_stats None same_second) = 2%nat
  /\ total_memories (get_database_stats None same_second)
     = (default O (by_type (get_database_stats None same_second) !! "image")
        + default O (by_type (get_database_stats None same_second) !! "audio"))%nat.
Proof.
  split; [exact same_second_well_formed|]. split; [vm_compute; reflexivity|].
  exact (proj2 (proj2 (proj2
           (stats_counts_add_up None same_second same_second_well_formed)))).
Defined.

Lemma Qsum_bounds (qs : list Q) :
  Forall (fun q => (-1 <= q <= 1)%Q) qs ->
  (- inject_Z (Z.of_nat (length qs)) <= Qsum qs
   /\ Qsum qs <= inject_Z (Z.of_nat (length qs)))%Q.
Proof.
  induction 1 as [|q qs [Hlo Hhi] _ [IHlo IHhi]].
  - split; unfold Qle; simpl; lia.
  - cbn [length Qsum foldr]. fold (Qsum qs).
    rewrite Nat2Z.inj_succ, <- Z.add_1_r, inject_Z_plus.
    change (inject_Z 1) with 1%Q. split; lra.
Qed.

Lemma sql_numbers_in_range (vs : list value) :
  Forall sentiment_in_range vs ->
  Forall (fun q => (-1 <= q <= 1)%Q) (omap sql_number vs).
Proof.
  induction 1 as [|v vs Hv _ IH]; simpl; [constructor|].
  destruct v as [|s|q|z]; simpl in *; try contradiction; [exact IH|].
  constructor; assumption.
Qed.

Lemma sql_avg_in_range (vs : list value) (q : Q) :
  Forall sentiment_in_range vs -> sql_avg vs = Some q -> (-1 <= q <= 1)%Q.
Proof.
  intros Hvs. unfold sql_avg.
  pose proof (Qsum_bounds _ (sql_numbers_in_range vs Hvs)) as [Hlo Hhi].
  destruct (omap sql_number vs) as [|x qs] eqn:Hqs; [discriminate|].
  intros H. inversion H; subst q. clear H.
  set (n := inject_Z (Z.of_nat (length (x :: qs)))) in *.
  assert (Hn : (0 < n)%Q).
  { unfold n. change 0%Q with (inject_Z 0). rewrite <- Zlt_Qlt. simpl. lia. }
  split; [apply Qle_shift_div_l|apply Qle_shift_div_r]; try exact Hn;
    unfold n in *; clear n;
    change (Qsum (x :: qs)) with (x + Qsum qs)%Q in *;
    change (length (x :: qs)) with (S (length qs)) in *; lra.
Qed.

Lemma omap_sql_number_null (vs : list value) :
  Forall (fun v => v = VNone) vs -> omap sql_number vs = [].
Proof.
  induction 1 as [|v vs Hv _ IH]; [reflexivity|]. subst v. exact IH.
Qed.

(** X10. The average of get_database_stats. When every stored sentiment is
    NULL or a float in [-1, 1] (what upload_memory stores), the reported
    average_sentiment lies in [-1, 1]; when no record has a sentiment, and
    in particular on an empty store, it is 0. *)
Theorem stats_average_in_range (db_file_size : option Z) (d : database) :
  (forall k r, memories d !! k = Some r ->
     sentiment_in_range (Memories.sentiment r)) ->
  (-1 <= average_sentiment (get_database_stats db_file_size d) <= 1)%Q
  /\ ((forall k r, memories d !! k = Some r -> Memories.sentiment r = VNone) ->
      (average_sentiment (get_database_stats db_file_size d) == 0)%Q).
Proof.
  intros Hall. simpl.
  assert (Hvs : Forall sentiment_in_range (map Memories.sentiment (table_rows d))).
  { apply List.Forall_forall. intros v Hv. apply in_map_iff in Hv as [r [<- Hr]].
    apply list_elem_of_In, elem_of_table_rows in Hr as [k Hk]. now apply (Hall k). }
  split.
  - apply round2_bounded.
    destruct (sql_avg (map Memories.sentiment (table_rows d))) as [q|] eqn:Havg;
      [|split; lra].
    pose proof (sql_avg_in_range _ q Hvs Havg) as Hq.
    destruct (Qeq_bool q 0); [split; lra|exact Hq].
  - intros Hnull.
    assert (Hnone : sql_avg (map Memories.sentiment (table_rows d)) = None).
    { unfold sql_avg.
      assert (Hnil : omap sql_number (map Memories.sentiment (table_rows d)) = []).
      { apply omap_sql_number_null, List.Forall_forall. intros v Hv.
        apply in_map_iff in Hv as [r [<- Hr]].
        apply list_elem_of_In, elem_of_table_rows in Hr as [k Hk]. now apply (Hnull k). }
      now rewrite Hnil. }
    rewrite Hnone. reflexivity.
Qed.

Lemma stats_average_in_range_witness :
  (forall k r, memories one_memory !! k = Some r ->
     sentiment_in_range (Memories.sentiment r))
  /\ (-1 <= average_sentiment (get_database_stats None one_memory) <= 1)%Q.
Proof.
  assert (H : forall k r, memories one_memory !! k = Some r ->
                sentiment_in_range (Memories.sentiment r)).
  { intros k r Hk.
    change (memories one_memory)
      with (<[1 := new_row 100 1 summer_trip]> (∅ : gmap Z Memories.row)) in Hk.
    apply lookup_insert_Some in Hk as [[_ <-]|[_ Hk]].
    - split; unfold Qle; simpl; lia.
    - now rewrite lookup_empty in Hk. }
  split; [exact H|].
  exact (proj1 (stats_average_in_range None one_memory H)).
Defined.

(** * Further properties of the endpoints *)

Lemma upload_of_rejected (w : world) (file : upload_file)
    (title : string) (person : option string) (st : app_state) :
  (content_type file = None
   \/ exists ct, content_type file = Some ct
                 /\ String.prefix "image/" ct = false
                 /\ String.prefix "audio/" ct = false) ->
  exists detail,
    upload_memory w file title person st = (HTTPException 500 detail, st, []).
Proof.
  intros [Hnone|(ct & Hct & Hi & Ha)]; unfold upload_memory.
  - rewrite Hnone. eexists. reflexivity.
  - rewrite Hct. destruct (String.eqb ct ""); [eexists; reflexivity|].
    rewrite Hi, Ha. simpl. eexists. reflexivity.
Qed.

(** X11. An upload whose content type is missing, empty, or neither
    image/... nor audio/... is answered with status 500, not 400: the
    HTTPException(400) raised in the try block is caught by its own
    [except Exception] and raised again as 500. Nothing is saved, no record
    is created and no scoring library is called. *)
Theorem upload_of_unsupported_type_answers_500 (w : world) (file : upload_file)
    (title : string) (person : option string) (st : app_state) :
  (content_type file = None
   \/ exists ct, content_type file = Some ct
                 /\ String.prefix "image/" ct = false
                 /\ String.prefix "audio/" ct = false) ->
  exists detail,
    upload_memory w file title person st = (HTTPException 500 detail, st, []).
Proof.
  intros [Hnone|(ct & Hct & Hi & Ha)]; unfold upload_memory.
  - rewrite Hnone. eexists. reflexivity.
  - rewrite Hct. destruct (String.eqb ct "") eqn:He.
    + eexists. reflexivity.
    + rewrite Hi, Ha. cbn [orb negb]. eexists. reflexivity.
Qed.

Lemma upload_of_unsupported_type_answers_500_witness :
  exists detail,
    upload_memory working_world
      {| content_type := Some "text/plain"; filename := "test.txt";
         file_bytes := "This is a text file" |}
      "Test Memory" (Some "Test Person") fresh_app
    = (HTTPException 500 detail, fresh_app, []).
Proof.
  apply (upload_of_unsupported_type_answers_500 working_world).
  right. exists "text/plain". repeat split; reflexivity.
Defined.

(** X12. What an accepted upload answers is what GET /api/memory/{id} then
    returns: status 200 with the record under the answered id, holding the
    answered title, text, date, location, sentiment, media path and media
    type, the person of the form (which the answer leaves out), and the
    clock's second as created_at and updated_at. *)
Theorem upload_then_get_memory (w : world) (file : upload_file) (title : string)
    (person : option string) (st : app_state) (ct : string) :
  content_type file = Some ct ->
  String.prefix "image/" ct || String.prefix "audio/" ct = true ->
  exists um st' calls,
    upload_memory w file title person st = (JSONResponse 200 um, st', calls)
    /\ get_memory (um_id um) st'
       = JSONResponse 200
           (Memories.mk (um_id um) (VStr (um_title um)) (VStr (um_text um))
              (um_date um) (um_location um) (VFloat (um_sentiment um))
              (VStr (um_media_path um)) (VStr (um_media_type um))
              (opt_value person) (clock w) (clock w))
    /\ um_title um = title
    /\ (um_media_type um = "image" \/ um_media_type um = "audio").
Proof.
  intros Hct Hkind.
  pose proof (upload_memory_accepted w file title person st ct Hct Hkind) as Hup.
  cbv zeta in Hup. eexists _, _, _. split; [exact Hup|].
  split; [|split; [reflexivity|]].
  - unfold get_memory, get_memory_by_id. cbn [db um_id insert_statement
      memories_fts_insert table_insert memories new_row Memories.id].
    rewrite lookup_insert_eq. reflexivity.
  - cbn [um_media_type]. destruct (String.prefix "image/" ct); auto.
Qed.

Lemma upload_then_get_memory_witness :
  content_type wav_upload = Some "audio/wav"
  /\ exists um st' calls,
      upload_memory working_world wav_upload "Test Audio Memory"
        (Some "Test Person") fresh_app = (JSONResponse 200 um, st', calls)
      /\ um_title um = "Test Audio Memory"
      /\ (um_media_type um = "image" \/ um_media_type um = "audio").
Proof.
  split; [reflexivity|].
  destruct (upload_then_get_memory working_world wav_upload "Test Audio Memory"
              (Some "Test Person") fresh_app "audio/wav" eq_refl eq_refl)
    as (um & st' & calls & Hup & _ & Ht & Hm).
  exists um, st', calls. auto.
Defined.

(** X13. Whatever its outcome, an upload keeps the store consistent,
    leaves every record, index row and file that was there before as it was
    (the file under the new name apart), and adds at most one record. *)
Theorem upload_leaves_the_rest_alone (w : world) (file : upload_file)
    (title : string) (person : option string) (st : app_state) :
  consistent (db st) ->
  let st' := (upload_memory w file title person st).1.2 in
  let path := "uploads/" +:+ uuid4 w +:+ lower (path_suffix (filename file)) in
  consistent (db st')
  /\ (forall k r, memories (db st) !! k = Some r -> memories (db st') !! k = Some r)
  /\ (forall k e, memories_fts (db st) !! k = Some e ->
        is_Some (memories (db st) !! k) -> memories_fts (db st') !! k = Some e)
  /\ (forall p, p <> path -> uploads st' !! p = uploads st !! p)
  /\ (size (memories (db st')) <= S (size (memories (db st))))%nat.
Proof.
  intros Hd. cbv zeta.
  destruct (content_type file) as [ct|] eqn:Hct.
  - destruct (String.prefix "image/" ct || String.prefix "audio/" ct) eqn:Hkind.
    + rewrite (upload_memory_accepted w file title person st ct Hct Hkind).
      cbn [fst snd db uploads].
      destruct (next_rowid_fresh (db st)) as (_ & _ & Hlt & Hnone).
      split; [|split; [|split; [|split]]].
      * apply insert_statement_consistent; [|exact Hd].
        unfold constraints_ok. simpl. now destruct (String.prefix "image/" ct).
      * intros k r Hk. simpl. rewrite lookup_insert_ne; [exact Hk|].
        intros <-. congruence.
      * intros k e Hk Hsome. simpl. rewrite lookup_insert_ne; [exact Hk|].
        intros <-. rewrite Hnone in Hsome. now destruct Hsome.
      * intros p Hp. now rewrite lookup_insert_ne by congruence.
      * simpl. rewrite map_size_insert_None by exact Hnone. lia.
    + apply orb_false_elim in Hkind as [Hi Ha].
      destruct (upload_of_rejected w file title person st) as [detail ->].
      { right. exists ct. auto. }
      cbn [fst snd].
      split; [exact Hd|]. split; [auto|]. split; [auto|]. split; [auto|lia].
  - destruct (upload_of_rejected w file title person st) as [detail ->].
    { now left. }
    cbn [fst snd].
      split; [exact Hd|]. split; [auto|]. split; [auto|]. split; [auto|lia].
Qed.

Lemma upload_leaves_the_rest_alone_witness :
  consistent (db fresh_app)
  /\ consistent
       (db (upload_memory working_world jpeg_upload "Test Image Memory" None
              fresh_app).1.2)
  /\ (size (memories
              (db (upload_memory working_world jpeg_upload "Test Image Memory" None
                     fresh_app).1.2))
      <= S (size (memories (db fresh_app))))%nat.
Proof.
  split; [exact init_database_consistent|].
  destruct (upload_leaves_the_rest_alone working_world jpeg_upload
              "Test Image Memory" None fresh_app init_database_consistent)
    as (H1 & _ & _ & _ & H5).
  split; [exact H1|exact H5].
Defined.

(** ** The search endpoint *)





(** ** The name of an uploaded file *)




Lemma str_app a b : str (a ++ b) = str a +:+ str b.
Proof.
  induction a as [|c a IH]; [reflexivity|].
  transitivity (String c (str a +:+ str b)); [simpl; f_equal; exact IH|reflexivity].
Qed.

Lemma str_app_nil (s : string) : s = s +:+ "".
Proof.
  induction s as [|c s IH]; [reflexivity|].
  transitivity (String c (s +:+ "")); [f_equal; exact IH|reflexivity].
Qed.

Lemma str_length l : String.length (str l) = length l.
Proof. induction l as [|c l IH]; simpl; [reflexivity|]. now rewrite IH. Qed.

Lemma chars_str l : chars (str l) = l.
Proof. apply list_ascii_of_string_of_list_ascii. Qed.


(** * Further properties of sentiment_utils *)

(** Turns every threshold test into the order it decides. *)
Ltac by_thresholds :=
  repeat match goal with
         | |- context [Qle_bool ?a ?b] =>
           let H := fresh "H" in
           let K := fresh "K" in
           destruct (Qle_bool a b) eqn:H;
           [apply Qle_bool_iff in H
           |assert (b < a)%Q
              by (apply Qnot_le_lt; intros K; apply Qle_bool_iff in K; congruence);
            clear H]
         end.

(** X16. Labels and emojis. Every score gets one of the five labels; the
    emoji of a score is the one that goes with its label; a larger score
    never gets a more negative label; and a score in [-0.2, 0.2), 0 among
    them, is Neutral. *)
Theorem sentiment_label_is_monotone (s1 s2 : Q) :
  0 <= label_rank (get_sentiment_label s1) <= 4
  /\ get_sentiment_emoji s1 = label_emoji (get_sentiment_label s1)
  /\ ((s1 <= s2)%Q ->
      label_rank (get_sentiment_label s1) <= label_rank (get_sentiment_label s2))
  /\ ((-0.2 <= s1)%Q -> (s1 < 0.2)%Q -> get_sentiment_label s1 = "Neutral").
Proof.
  unfold get_sentiment_label, get_sentiment_emoji.
  split; [|split; [|split]].
  - by_thresholds; cbn; lia.
  - by_thresholds; reflexivity.
  - intros Hle. by_thresholds; cbn; try lia; exfalso; lra.
  - intros Hlo Hhi. by_thresholds; try reflexivity; exfalso; lra.
Qed.




Lemma Qabs_diff_bounded a b :
  (-1 <= a <= 1)%Q -> (-1 <= b <= 1)%Q -> (-1 <= 1 - Qabs (a - b) <= 1)%Q.
Proof.
  intros [Ha1 Ha2] [Hb1 Hb2].
  assert (H0 : (0 <= Qabs (a - b))%Q) by apply Qabs_nonneg.
  assert (H2 : (Qabs (a - b) <= 2)%Q) by (apply Qabs_Qle_condition; split; lra).
  split; lra.
Qed.

(** X18. analyze_sentiment_detailed against analyze_sentiment. With scoring
    libraries that keep to [-1, 1]: the detailed score, both library scores
    and the confidence lie in [-1, 1], and the emoji is the one of the label.
    For blank text both functions give 0 without a library call; when the
    cleaned text is not empty they give the same score from the same calls.
    When cleaning leaves nothing, analyze_sentiment stops with 0 and no call,
    while the detailed function still calls both libraries on the empty
    text. *)
Theorem detailed_sentiment_agrees (w : world) (text : option string) :
  scorers_bounded w ->
  let d := (analyze_sentiment_detailed w text).1 in
  (-1 <= ds_score d <= 1)%Q
  /\ (-1 <= ds_textblob_score d <= 1)%Q
  /\ (-1 <= ds_vader_score d <= 1)%Q
  /\ (-1 <= ds_confidence d <= 1)%Q
  /\ ds_emoji d = label_emoji (ds_label d)
  /\ (blank text ->
      analyze_sentiment_detailed w text = (neutral_sentiment, [])
      /\ analyze_sentiment w text = (0%Q, []))
  /\ (forall s, text = Some s -> ~ blank text ->
      (clean_text_for_sentiment w s <> "" ->
       ds_score d = (analyze_sentiment w text).1
       /\ (analyze_sentiment_detailed w text).2 = (analyze_sentiment w text).2)
      /\ (clean_text_for_sentiment w s = "" ->
          analyze_sentiment w text = (0%Q, [])
          /\ (analyze_sentiment_detailed w text).2
             = [TextBlobCall ""; VaderCall ""])).
Proof.
  intros Hw. cbv zeta.
  assert (Hneutral : (-1 <= 0 <= 1)%Q) by (split; lra).
  destruct text as [s|].
  2:{ simpl. repeat split; try lra; try reflexivity; intros; discriminate. }
  unfold analyze_sentiment_detailed, analyze_sentiment, blank.
  destruct (String.eqb s "" || String.eqb (strip s) "") eqn:Hb.
  { cbn [fst snd neutral_sentiment ds_score ds_textblob_score ds_vader_score
           ds_confidence ds_emoji ds_label].
    split; [exact Hneutral|]. split; [exact Hneutral|]. split; [exact Hneutral|].
    split; [exact Hneutral|]. split; [reflexivity|].
    split; [intros _; split; reflexivity|].
    intros s' Hs Hnb. exfalso. apply Hnb.
    apply orb_prop in Hb as [Hb|Hb]; apply String.eqb_eq in Hb;
      [subst s; reflexivity|exact Hb]. }
  apply orb_false_elim in Hb as [_ Hb].
  unfold get_textblob_sentiment, get_vader_sentiment. cbn [fst snd app].
  destruct Hw as [Htb Hvd].
  pose proof (scorer_value_bounded (textblob_polarity w (clean_text_for_sentiment w s))
                (Htb _)) as H1.
  pose proof (scorer_value_bounded (vader_compound w (clean_text_for_sentiment w s))
                (Hvd _)) as H2.
  cbn [ds_score ds_textblob_score ds_vader_score ds_confidence ds_emoji ds_label].
  split; [|split; [|split; [|split; [|split; [|split]]]]].
  - apply round2_bounded.
    split; [apply Qle_shift_div_l|apply Qle_shift_div_r]; lra.
  - now apply round2_bounded.
  - now apply round2_bounded.
  - now apply round2_bounded, Qabs_diff_bounded.
  - unfold get_sentiment_label, get_sentiment_emoji. by_thresholds; reflexivity.
  - intros Hs. apply String.eqb_neq in Hb. contradiction.
  - intros s' Hs _. inversion Hs; subst s'. split.
    + intros Hne. apply String.eqb_neq in Hne. rewrite Hne. split; reflexivity.
    + intros He. rewrite He. split; reflexivity.
Qed.

Lemma detailed_sentiment_agrees_witness :
  scorers_bounded working_world
  /\ (-1 <= ds_score (analyze_sentiment_detailed working_world
                        (Some "A lovely day")).1 <= 1)%Q
  /\ (-1 <= ds_confidence (analyze_sentiment_detailed working_world
                             (Some "A lovely day")).1 <= 1)%Q.
Proof.
  split; [exact working_world_bounded|].
  destruct (detailed_sentiment_agrees working_world (Some "A lovely day")
              working_world_bounded) as (H1 & _ & _ & H4 & _).
  split; [exact H1|exact H4].
Defined.

(** * Further properties of ocr_utils *)

Lemma strip_infix s :
  exists pre post, chars s = pre ++ chars (strip s) ++ post.
Proof.
  unfold strip. rewrite chars_str.
  destruct (lstrip_chars_split (chars s)) as [pre Hpre].
  destruct (lstrip_chars_split (rev (lstrip_chars (chars s)))) as [pre2 Hpre2].
  exists pre, (rev pre2). rewrite Hpre at 1. f_equal.
  rewrite <- (rev_involutive (lstrip_chars (chars s))) at 1.
  rewrite Hpre2 at 1. apply rev_app_distr.
Qed.

Lemma has_double_space_app a b :
  has_double_space (a ++ b) = false ->
  has_double_space a = false /\ has_double_space b = false.
Proof.
  induction a as [|x a IH]; intros H; [auto|].
  destruct a as [|y a].
  - split; [reflexivity|]. simpl in H. destruct b as [|c b]; [reflexivity|].
    now apply orb_false_elim in H as [_ H].
  - change (Ascii.eqb x " " && Ascii.eqb y " " || has_double_space ((y :: a) ++ b)
            = false) in H.
    apply orb_false_elim in H as [H1 H2]. destruct (IH H2) as [Ha Hb].
    split; [|exact Hb].
    change (Ascii.eqb x " " && Ascii.eqb y " " || has_double_space (y :: a) = false).
    now rewrite H1, Ha.
Qed.

Lemma strip_keeps (P : list ascii -> Prop) s :
  (forall pre m post, P (pre ++ m ++ post) -> P m) ->
  P (chars s) -> P (chars (strip s)).
Proof.
  intros HP H. destruct (strip_infix s) as (pre & post & Heq).
  rewrite Heq in H. exact (HP _ _ _ H).
Qed.

Lemma split_chars_no_sep sep l :
  Forall (Forall (fun c => c <> sep)) (split_chars sep l).
Proof.
  induction l as [|c l IH]; simpl; [repeat constructor|].
  destruct (Ascii.eqb_spec c sep) as [->|Hne].
  - constructor; [constructor|exact IH].
  - destruct (split_chars sep l) as [|w ws]; [repeat constructor; assumption|].
    inversion IH; subst. constructor; [constructor; assumption|assumption].
Qed.

Lemma chars_app a b : chars (a +:+ b) = chars a ++ chars b.
Proof.
  induction a as [|c a IH]; [reflexivity|].
  change (chars (String c a +:+ b)) with (c :: chars (a +:+ b)).
  now rewrite IH.
Qed.

Lemma concat_chars_Forall (Q : ascii -> Prop) (sep : string) (lines : list string) :
  Forall Q (chars sep) ->
  Forall (fun line => Forall Q (chars line)) lines ->
  Forall Q (chars (String.concat sep lines)).
Proof.
  intros Hsep. induction 1 as [|line lines Hline Hlines IH]; simpl; [constructor|].
  destruct lines as [|l2 lines]; [exact Hline|].
  rewrite !chars_app. apply Forall_app. split; [exact Hline|].
  apply Forall_app. split; [exact Hsep|exact IH].
Qed.

Lemma replace_double_space_cons c1 c2 l2 :
  replace_double_space (c1 :: c2 :: l2)
  = if Ascii.eqb c1 " " && Ascii.eqb c2 " "
    then " "%char :: replace_double_space l2
    else c1 :: replace_double_space (c2 :: l2).
Proof. reflexivity. Qed.

Lemma replace_double_space_Forall (Q : ascii -> Prop) n l :
  (length l <= n)%nat -> Forall Q l -> Forall Q (replace_double_space l).
Proof.
  revert l. induction n as [|n IH]; intros l Hn Hl.
  - destruct l; [constructor|simpl in Hn; lia].
  - destruct l as [|c1 [|c2 l2]]; [constructor|exact Hl|].
    rewrite replace_double_space_cons.
    inversion Hl as [|? ? H1 Hl1]; subst. inversion Hl1 as [|? ? H2 Hl2]; subst.
    simpl in Hn.
    destruct (Ascii.eqb c1 " " && Ascii.eqb c2 " ") eqn:Hsp.
    + apply andb_prop in Hsp as [Hsp _]. apply Ascii.eqb_eq in Hsp. subst c1.
      constructor; [exact H1|]. apply IH; [lia|exact Hl2].
    + constructor; [exact H1|]. apply IH; [simpl; lia|exact Hl1].
Qed.

Lemma squeeze_spaces_Forall (Q : ascii -> Prop) n l :
  Forall Q l -> Forall Q (squeeze_spaces n l).
Proof.
  revert l. induction n as [|n IH]; intros l Hl; simpl; [exact Hl|].
  destruct (has_double_space l); [|exact Hl].
  apply IH. now apply (replace_double_space_Forall Q (length l)).
Qed.

(** X19. The text clean_extracted_text returns has no line break and no
    two spaces in a row, and has no whitespace at either end: stripping it
    again changes nothing. *)
Theorem clean_extracted_text_is_tidy (text : string) :
  Forall (fun c => c <> "010"%char) (chars (clean_extracted_text text))
  /\ has_double_space (chars (clean_extracted_text text)) = false
  /\ strip (clean_extracted_text text) = clean_extracted_text text.
Proof.
  unfold clean_extracted_text.
  destruct (String.eqb text ""); [repeat split; constructor|].
  set (lines := filter (fun line => line <> "") (map strip (split "010" text))).
  set (joined := String.concat " " lines).
  set (squeezed := squeeze_spaces (String.length joined) (chars joined)).
  split; [|split].
  - apply (strip_keeps (Forall (fun c => c <> "010"%char))).
    { intros pre m post H. apply Forall_app in H as [_ H].
      now apply Forall_app in H as [H _]. }
    rewrite chars_str. apply squeeze_spaces_Forall.
    apply concat_chars_Forall; [repeat constructor; discriminate|].
    apply List.Forall_forall. intros line Hline.
    apply list_elem_of_In, list_elem_of_filter in Hline as [_ Hline].
    apply list_elem_of_In, in_map_iff in Hline as [piece [<- Hpiece]].
    apply (strip_keeps (Forall (fun c => c <> "010"%char))).
    { intros pre m post H. apply Forall_app in H as [_ H].
      now apply Forall_app in H as [H _]. }
    unfold split in Hpiece. apply in_map_iff in Hpiece as [l [<- Hl]].
    rewrite chars_str.
    pose proof (split_chars_no_sep "010" (chars text)) as Hall.
    rewrite List.Forall_forall in Hall. now apply Hall.
  - apply (strip_keeps (fun l => has_double_space l = false)).
    { intros pre m post H. apply has_double_space_app in H as [_ H].
      now apply has_double_space_app in H as [H _]. }
    rewrite chars_str. apply squeeze_spaces_done.
    unfold chars. rewrite <- (str_length (list_ascii_of_string joined)).
    unfold str. now rewrite string_of_list_ascii_of_string.
  - apply strip_idem.
Qed.

Lemma split_chars_first sep a b :
  Forall (fun c => c <> sep) a ->
  split_chars sep (a ++ sep :: b) = a :: split_chars sep b.
Proof.
  induction 1 as [|c a Hc _ IH]; simpl.
  - now rewrite Ascii.eqb_refl.
  - destruct (Ascii.eqb_spec c sep); [contradiction|]. now rewrite IH.
Qed.

Lemma split_chars_head sep l :
  exists w ws, split_chars sep l = w :: ws /\ Forall (fun c => c <> sep) w.
Proof.
  pose proof (split_chars_no_sep sep l) as H.
  destruct (split_chars sep l) as [|w ws] eqn:Hs.
  - destruct l as [|c l]; simpl in Hs; [discriminate|].
    destruct (Ascii.eqb c sep); [discriminate|].
    destruct (split_chars sep l); discriminate.
  - exists w, ws. split; [reflexivity|]. now inversion H.
Qed.

(** X20. The fields of extract_exif_data when the file can be read. The
    date comes from EXIF DateTimeOriginal and only without it from Image
    DateTime, else it is None; it is the part of the tag before the first
    space with every ':' turned into '-', so it holds no ':' and no space, and
    "YYYY:MM:DD HH:MM:SS" gives "YYYY-MM-DD". camera_make and camera_model are
    the tags Image Make and Image Model or None. location is
    "GPS: <lat>, <lon>" when both GPS tags are there and None when either is
    missing. *)
Theorem exif_fields_follow_tags (w : world) (image_path : string)
    (tags : gmap string string) :
  exifread_process_file w image_path = Return tags ->
  let exif_data := extract_exif_data w image_path in
  exif_data !! "date"
    = Some (exif_date <$> match tags !! "EXIF DateTimeOriginal" with
                          | Some d => Some d
                          | None => tags !! "Image DateTime"
                          end)
  /\ exif_data !! "camera_make" = Some (tags !! "Image Make")
  /\ exif_data !! "camera_model" = Some (tags !! "Image Model")
  /\ exif_data !! "location"
     = Some (match tags !! "GPS GPSLatitude", tags !! "GPS GPSLongitude" with
             | Some lat, Some lon => Some ("GPS: " +:+ lat +:+ ", " +:+ lon)
             | _, _ => None
             end)
  /\ (forall d, Forall (fun c => c <> ":"%char /\ c <> " "%char)
                  (chars (exif_date d)))
  /\ (forall day rest,
        Forall (fun c => c <> " "%char) (chars day) ->
        exif_date (day +:+ " " +:+ rest) = replace_char ":" "-" day).
Proof.
  intros Htags. cbv zeta. unfold extract_exif_data. rewrite Htags.
  split; [|split; [|split; [|split; [|split]]]].
  - destruct (tags !! "EXIF DateTimeOriginal"); [|destruct (tags !! "Image DateTime")];
      destruct (tags !! "Image Make"); destruct (tags !! "Image Model");
      destruct (tags !! "GPS GPSLatitude"); destruct (tags !! "GPS GPSLongitude");
      reflexivity.
  - destruct (tags !! "EXIF DateTimeOriginal"); [|destruct (tags !! "Image DateTime")];
      destruct (tags !! "Image Make"); destruct (tags !! "Image Model");
      destruct (tags !! "GPS GPSLatitude"); destruct (tags !! "GPS GPSLongitude");
      reflexivity.
  - destruct (tags !! "EXIF DateTimeOriginal"); [|destruct (tags !! "Image DateTime")];
      destruct (tags !! "Image Make"); destruct (tags !! "Image Model");
      destruct (tags !! "GPS GPSLatitude"); destruct (tags !! "GPS GPSLongitude");
      reflexivity.
  - destruct (tags !! "EXIF DateTimeOriginal"); [|destruct (tags !! "Image DateTime")];
      destruct (tags !! "Image Make"); destruct (tags !! "Image Model");
      destruct (tags !! "GPS GPSLatitude"); destruct (tags !! "GPS GPSLongitude");
      reflexivity.
  - intros d. unfold exif_date, split, replace_char.
    destruct (split_chars_head " " (chars d)) as (p & ps & -> & Hp).
    simpl. rewrite !chars_str. apply List.Forall_forall. intros c Hc.
    apply in_map_iff in Hc as [c0 [<- Hc0]].
    rewrite List.Forall_forall in Hp. specialize (Hp c0 Hc0).
    destruct (Ascii.eqb_spec c0 ":") as [->|Hne]; split; try discriminate; assumption.
  - intros day rest Hday. unfold exif_date, split.
    rewrite chars_app.
    change (chars (" " +:+ rest)) with (" "%char :: chars rest).
    rewrite (split_chars_first " " _ _ Hday). simpl.
    unfold str, chars. now rewrite string_of_list_ascii_of_string.
Qed.

Lemma exif_fields_follow_tags_witness :
  exifread_process_file working_world "uploads/0c3e.jpg"
    = Return {[ "EXIF DateTimeOriginal" := "2023:07:15 14:30:00";
                "Image Make" := "Canon" ]}
  /\ extract_exif_data working_world "uploads/0c3e.jpg" !! "date"
     = Some (Some "2023-07-15")
  /\ extract_exif_data working_world "uploads/0c3e.jpg" !! "location" = Some None.
Proof.
  split; [reflexivity|].
  destruct (exif_fields_follow_tags working_world "uploads/0c3e.jpg" _ eq_refl)
    as (H1 & _ & _ & H4 & _).
  split; [exact H1|exact H4].
Defined.

(** * Further properties of asr_utils *)

Lemma splitext_joins p : (splitext p).1 +:+ (splitext p).2 = p.
Proof.
  unfold splitext.
  destruct (rfind "/" (chars p) <? rfind "." (chars p));
    [destruct (existsb _ _)|]; cbn [fst snd];
    try (symmetry; apply str_app_nil).
  rewrite <- str_app, take_drop. apply string_of_list_ascii_of_string.
Qed.

Lemma lower_app a b : lower (a +:+ b) = lower a +:+ lower b.
Proof. unfold lower. now rewrite chars_app, map_app, str_app. Qed.

(** X21. validate_audio_file accepts a path only when the file exists, is
    at most 25 * 1024 * 1024 bytes long, and the path, lower-cased, ends in
    one of '.mp3', '.wav', '.m4a', '.flac', '.ogg'; a missing file and a
    longer file are refused whatever the name. get_audio_info describes
    exactly the files that exist. *)
Theorem validate_audio_file_accepts (fs : files) (audio_path : string) :
  (validate_audio_file fs audio_path = true ->
   exists content root ext,
     fs !! audio_path = Some content
     /\ Z.of_nat (String.length content) <= 26214400
     /\ ext ∈ valid_extensions
     /\ lower audio_path = root +:+ ext)
  /\ (fs !! audio_path = None -> validate_audio_file fs audio_path = false)
  /\ (forall content,
        fs !! audio_path = Some content ->
        26214400 < Z.of_nat (String.length content) ->
        validate_audio_file fs audio_path = false)
  /\ (is_Some (get_audio_info fs audio_path) <-> is_Some (fs !! audio_path)).
Proof.
  unfold validate_audio_file, get_audio_info, getsize.
  split; [|split; [|split]].
  - destruct (fs !! audio_path) as [content|]; simpl; [|discriminate].
    destruct (25 * 1024 * 1024 <? Z.of_nat (String.length content)) eqn:Hsz;
      [discriminate|].
    intros H. apply bool_decide_eq_true in H.
    exists content, (lower (splitext audio_path).1), (lower (splitext audio_path).2).
    split; [reflexivity|]. split; [apply Z.ltb_ge in Hsz; lia|].
    split; [exact H|]. now rewrite <- lower_app, splitext_joins.
  - intros ->. reflexivity.
  - intros content -> Hsz. simpl.
    destruct (25 * 1024 * 1024 <? Z.of_nat (String.length content)) eqn:H;
      [reflexivity|]. apply Z.ltb_ge in H. lia.
  - destruct (fs !! audio_path); simpl; split; intros [x Hx]; eauto; discriminate.
Qed.

(** X22. The Whisper model is loaded at most once. A call of
    transcribe_audio that finds the slot filled leaves it as it is and never
    asks for the model again: its result does not depend on what loading
    would do. The slot is filled after a call exactly when it was filled
    before, or the audio file exists and loading succeeded; a failed load is
    not remembered, so the next call tries again. *)
Theorem whisper_model_is_loaded_once (w : world) (fs : files)
    (audio_path : string) (slot : option unit) :
  (is_Some slot -> (transcribe_audio w fs audio_path slot).2 = slot)
  /\ (is_Some (transcribe_audio w fs audio_path slot).2
      <-> is_Some slot
          \/ (is_Some (fs !! audio_path)
              /\ exists m, whisper_load_model w "small" = Return m))
  /\ (forall w',
        is_Some slot ->
        whisper_transcribe w' audio_path = whisper_transcribe w audio_path ->
        transcribe_audio w' fs audio_path slot = transcribe_audio w fs audio_path slot)
  /\ (fs !! audio_path = None ->
      transcribe_audio w fs audio_path slot
      = ("Transcription failed: Audio file not found: " +:+ audio_path, slot)).
Proof.
  unfold transcribe_audio, load_whisper_model.
  split; [|split; [|split]].
  - intros [m ->]. destruct (bool_decide _); [|reflexivity].
    destruct (whisper_transcribe w audio_path); reflexivity.
  - destruct (bool_decide (is_Some (fs !! audio_path))) eqn:Hex.
    + apply bool_decide_eq_true in Hex. destruct slot as [m|].
      * destruct (whisper_transcribe w audio_path); simpl; split; eauto.
      * destruct (whisper_load_model w "small") as [m|e] eqn:Hload.
        -- destruct (whisper_transcribe w audio_path); simpl; split; eauto.
        -- simpl. split; [intros [x Hx]; discriminate|].
           intros [[x Hx]|[_ [m Hm]]]; discriminate.
    + apply bool_decide_eq_false in Hex. simpl. split; [auto|].
      intros [H|[H _]]; [exact H|contradiction].
  - intros w' [m ->] Heq. rewrite Heq. reflexivity.
  - intros Hnone. rewrite Hnone. reflexivity.
Qed.

(** * Constraints and the id counter *)









(** * The newest upload in the listing *)

Lemma insert_statement_memories r d :
  memories (insert_statement r d) = <[Memories.id r := r]> (memories d).
Proof. reflexivity. Qed.

Lemma sorted_head_is_newest (r0 : Memories.row) (l : list Memories.row) :
  StronglySorted created_at_desc l ->
  r0 ∈ l ->
  (forall r, r ∈ l -> r = r0 \/ Memories.created_at r < Memories.created_at r0) ->
  exists rest, l = r0 :: rest.
Proof.
  intros Hs Hin Hold. destruct l as [|x rest]; [now apply elem_of_nil in Hin|].
  exists rest. f_equal.
  destruct (Hold x) as [Hx|Hx]; [left|exact Hx|].
  apply elem_of_cons in Hin as [Hin|Hin]; [now symmetry|].
  apply StronglySorted_inv in Hs as [_ Hall].
  rewrite List.Forall_forall in Hall.
  apply list_elem_of_In, Hall in Hin. unfold created_at_desc in Hin. lia.
Qed.

(** X26. The newest upload heads the listing. When every record of the
    store is older than the clock's second, then after an accepted upload
    GET /api/memories at offset 0, with any limit other than 0 and whatever
    the order in which the engine visits the rows, answers 200 with the
    uploaded record first: the answered id, title, text, date, location,
    sentiment, media path and media type, and the clock's second as
    created_at; its count is the length of the list. *)
Theorem uploaded_memory_heads_the_listing (w : world) (file : upload_file)
    (title : string) (person : option string) (st : app_state) (ct : string)
    (plan : list Memories.row -> list Memories.row) (limit : Z) :
  content_type file = Some ct ->
  String.prefix "image/" ct || String.prefix "audio/" ct = true ->
  (forall l, plan l ≡ₚ l) ->
  (forall k r, memories (db st) !! k = Some r -> Memories.created_at r < clock w) ->
  limit <> 0 ->
  exists um st' calls rest,
    upload_memory w file title person st = (JSONResponse 200 um, st', calls)
    /\ list_memories plan limit 0 st'
       = JSONResponse 200
           ({| lm_id := um_id um;
               lm_title := VStr (um_title um);
               lm_text := VStr (um_text um);
               lm_date := um_date um;
               lm_location := um_location um;
               lm_sentiment := VFloat (um_sentiment um);
               lm_media_path := VStr (um_media_path um);
               lm_media_type := VStr (um_media_type um);
               lm_created_at := clock w |} :: rest,
            S (length rest)).
Proof.
  intros Hct Hkind Hplan Hold Hlimit.
  pose proof (upload_memory_accepted w file title person st ct Hct Hkind) as Hup.
  cbv zeta in Hup.
  set (p := process_file w (String.prefix "image/" ct)
              ("uploads/" +:+ uuid4 w +:+ lower (path_suffix (filename file)))
              (<["uploads/" +:+ uuid4 w +:+ lower (path_suffix (filename file))
                 := file_bytes file]> (uploads st)) (whisper_slot st)) in Hup.
  set (s := score_text w p.1.1.1) in Hup.
  set (args := {| arg_title := VStr title; arg_text := VStr p.1.1.1;
                  arg_date := p.1.1.2; arg_location := p.1.2;
                  arg_sentiment := VFloat s.1;
                  arg_media_path :=
                    VStr ("/media/uploads/" +:+ uuid4 w
                          +:+ lower (path_suffix (filename file)));
                  arg_media_type :=
                    VStr (if String.prefix "image/" ct then "image" else "audio");
                  arg_person := opt_value person |}) in Hup.
  set (r0 := new_row (clock w) (next_rowid (db st)) args) in Hup.
  set (d' := insert_statement r0 (db st)) in Hup.
  set (sorted := order_by_created_at_desc plan (table_rows d')).
  assert (Hperm : sorted ≡ₚ table_rows d').
  { unfold sorted, order_by_created_at_desc.
    now rewrite merge_sort_Permutation, Hplan. }
  assert (Hhead : exists rest, sorted = r0 :: rest).
  { apply sorted_head_is_newest.
    - unfold sorted, order_by_created_at_desc.
      apply StronglySorted_merge_sort; apply _.
    - rewrite Hperm. apply elem_of_table_rows. exists (next_rowid (db st)).
      unfold d'. rewrite insert_statement_memories. apply lookup_insert_eq.
    - intros r Hr. rewrite Hperm in Hr.
      apply elem_of_table_rows in Hr as [k Hk].
      unfold d' in Hk. rewrite insert_statement_memories in Hk.
      apply lookup_insert_Some in Hk as [[_ Hk]|[_ Hk]]; [left; now symmetry|].
      right. apply Hold in Hk. exact Hk. }
  destruct Hhead as [rest Hrest].
  eexists _, _, _, (map to_listed (sql_limit (limit - 1) 0 rest)).
  split; [exact Hup|].
  unfold list_memories. cbn [db]. fold sorted. rewrite Hrest.
  assert (Hl : sql_limit limit 0 (r0 :: rest)
               = r0 :: sql_limit (limit - 1) 0 rest).
  { unfold sql_limit. cbn [Z.to_nat drop]. rewrite !drop_0.
    destruct (limit <? 0) eqn:Hneg.
    - apply Z.ltb_lt in Hneg.
      replace (limit - 1 <? 0) with true by (symmetry; apply Z.ltb_lt; lia).
      reflexivity.
    - apply Z.ltb_ge in Hneg.
      replace (limit - 1 <? 0) with false by (symmetry; apply Z.ltb_ge; lia).
      replace (Z.to_nat limit) with (S (Z.to_nat (limit - 1))) by lia.
      reflexivity. }
  rewrite Hl. cbn [map length]. reflexivity.
Qed.

Lemma uploaded_memory_heads_the_listing_witness :
  (forall k r,
     memories (final (create_memory 50 summer_trip init_database)) !! k = Some r ->
     Memories.created_at r < clock working_world)
  /\ exists um st' calls rest,
      upload_memory working_world wav_upload "Test Audio Memory" None
        {| db := final (create_memory 50 summer_trip init_database);
           uploads := ∅; whisper_slot := None |}
      = (JSONResponse 200 um, st', calls)
      /\ list_memories rowid_scan 20 0 st'
         = JSONResponse 200
             ({| lm_id := um_id um;
                 lm_title := VStr (um_title um);
                 lm_text := VStr (um_text um);
                 lm_date := um_date um;
                 lm_location := um_location um;
                 lm_sentiment := VFloat (um_sentiment um);
                 lm_media_path := VStr (um_media_path um);
                 lm_media_type := VStr (um_media_type um);
                 lm_created_at := clock working_world |} :: rest,
              S (length rest)).
Proof.
  assert (Hold : forall k r,
            memories (final (create_memory 50 summer_trip init_database)) !! k
              = Some r ->
            Memories.created_at r < clock working_world).
  { intros k r Hk.
    change (memories (final (create_memory 50 summer_trip init_database)))
      with (<[1 := new_row 50 1 summer_trip]> (∅ : gmap Z Memories.row)) in Hk.
    apply lookup_insert_Some in Hk as [[_ <-]|[_ Hk]]; [reflexivity|].
    now rewrite lookup_empty in Hk. }
  split; [exact Hold|].
  apply (uploaded_memory_heads_the_listing working_world wav_upload
           "Test Audio Memory" None
           {| db := final (create_memory 50 summer_trip init_database);
              uploads := ∅; whisper_slot := None |}
           "audio/wav" rowid_scan 20 eq_refl eq_refl).
  - intros l. reflexivity.
  - exact Hold.
  - discriminate.
Defined.
